(** * RentWeb: the Redis cache layer and the rate limiter

    A shallow embedding of [app/lib/cache.ts] ([CacheService], [CacheKeys],
    [CacheTTL]) and [app/lib/rate-limit.ts] ([RateLimiter]) over a model of the
    Redis keyspace, followed by the properties of section 8 of the
    specification.

    Every method of the two classes is an [async] function that talks to the
    store through [getRedis()] and a single command, inside a [try]/[catch].
    The embedding is a state-and-exception monad over a [world]: the Redis
    keyspace, the wall clock, a schedule saying at which interactions the store
    is reachable, and a journal of the commands issued and of the producer
    invocations.

    What the model fixes:
    - one client at a time: a call runs to its end before the next one starts
      (the interleavings of section 5 of the specification are out of its
      reach);
    - a call takes no time; time passes between calls ([elapse]);
    - numbers are integers ([Z]): counts, limits, lifetimes in seconds, the
      clock in milliseconds;
    - the connection handling of [app/lib/redis.ts] is seen by its outcome:
      [getRedis()] either hands out the client or throws. *)

From Stdlib Require Import ZArith String Ascii List Lia Bool.
From Stdlib Require Import DecimalString DecimalZ DecimalPos.
From stdpp Require Import base option list gmap strings.

Local Open Scope string_scope.
Local Open Scope Z_scope.

(** ** JavaScript values and the JSON codec

    [CacheService] is generic in the cached type [T]; the only things it does
    with a value are to compare it with [null], to hand it to
    [JSON.stringify] and to get it back from [JSON.parse].  The development
    is parametric in these. *)

Class JS (value : Type) := {
  (** the value [null] *)
  null : value;
  (** [x !== null] is decidable *)
  #[global] value_eq_dec :: EqDecision value;
  (** [JSON.stringify]: [None] when there is no JSON text to store, either
      because the result is [undefined] (for [undefined], a function, a
      symbol) or because [stringify] throws (a cycle, a BigInt) *)
  JSON_stringify : value -> option string;
  (** [JSON.parse]: [None] when it throws a [SyntaxError] *)
  JSON_parse : string -> option value;
}.

(** ** Numbers as the store and the HTTP headers print them *)

(** [n.toString()] of an integral number, and the decimal text Redis keeps
    for a counter. *)
Definition Number_toString (z : Z) : string :=
  NilZero.string_of_int (Z.to_int z).

Definition LLONG_MAX : Z := 9223372036854775807.
Definition LLONG_MIN : Z := -9223372036854775808.

(** Redis' [string2ll]: the text must be the canonical decimal writing of a
    signed 64-bit integer (no sign [+], no leading zero, no [-0], no blank). *)
Definition string2ll (s : string) : option Z :=
  match NilZero.int_of_string s with
  | Some d =>
      let z := Z.of_int d in
      if decide (Number_toString z = s /\ LLONG_MIN <= z <= LLONG_MAX)
      then Some z else None
  | None => None
  end.

(** ** Glob-style patterns of the [KEYS] command

    [*] matches any run of characters, [?] one character, [[...]] one
    character of a class (with [^] for the complement and [a-z] for ranges),
    and a backslash takes the next character literally. *)

Definition ascii_leb (a b : ascii) : bool := (N_of_ascii a <=? N_of_ascii b)%N.

(** Scans the inside of a class for the character [c]; returns whether [c]
    was found, and the pattern after the closing bracket. *)
Fixpoint glob_class (p : list ascii) (c : ascii) (found : bool)
  : bool * list ascii :=
  match p with
  | [] => (found, [])
  | x :: rest =>
      if Ascii.eqb x "]" then (found, rest)
      else
        match rest with
        | y :: rest' =>
            if Ascii.eqb x "\" then glob_class rest' c (found || Ascii.eqb y c)
            else
              match rest' with
              | hi :: rest'' =>
                  if Ascii.eqb y "-" then
                    let inside :=
                      if ascii_leb x hi then ascii_leb x c && ascii_leb c hi
                      else ascii_leb hi c && ascii_leb c x in
                    glob_class rest'' c (found || inside)
                  else glob_class rest c (found || Ascii.eqb x c)
              | [] => glob_class rest c (found || Ascii.eqb x c)
              end
        | [] => glob_class rest c (found || Ascii.eqb x c)
        end
  end.

Fixpoint glob_fuel (fuel : nat) (p s : list ascii) : bool :=
  match fuel with
  | O => false
  | S fuel' =>
      match p with
      | [] => match s with [] => true | _ => false end
      | x :: p' =>
          if Ascii.eqb x "*" then
            (fix star (s : list ascii) : bool :=
               glob_fuel fuel' p' s ||
               match s with
               | [] => false
               | _ :: s' => star s'
               end) s
          else
            match s with
            | [] => false
            | c :: s' =>
                if Ascii.eqb x "?" then glob_fuel fuel' p' s'
                else if Ascii.eqb x "[" then
                  let negated :=
                    match p' with
                    | n :: _ => Ascii.eqb n "^"
                    | [] => false
                    end in
                  let body := if negated then tl p' else p' in
                  let '(found, rest) := glob_class body c false in
                  if xorb negated found then glob_fuel fuel' rest s' else false
                else
                  match p' with
                  | y :: p'' =>
                      if Ascii.eqb x "\" then
                        if Ascii.eqb y c then glob_fuel fuel' p'' s' else false
                      else
                        if Ascii.eqb x c then glob_fuel fuel' p' s' else false
                  | [] =>
                      if Ascii.eqb x c then glob_fuel fuel' p' s' else false
                  end
            end
      end
  end.

(** The pattern gets shorter at every step, so its length (plus one for the
    final test) is enough fuel. *)
Definition stringmatch (pattern key : string) : bool :=
  let p := list_ascii_of_string pattern in
  glob_fuel (S (length p)) p (list_ascii_of_string key).

(** ** The world: Redis keyspace, clock, reachability, journal *)

(** A Redis string value with its time of death, in milliseconds of the wall
    clock ([None]: the key is persistent). *)
Record entry := Entry { data : string; deadline : option Z }.

(** What the journal records: every command issued to the store, and every
    invocation of a producer handed to [getOrSet]. *)
Inductive event :=
| GET (key : string)
| SETEX (key : string) (seconds : Z) (text : string)
| SETNX (key : string) (seconds : Z) (text : string)
| DEL (keys : list string)
| KEYS (pattern : string)
| EXISTS (key : string)
| INCR (key : string)
| EXPIRE (key : string) (seconds : Z)
| Fetch.

#[global] Instance event_eq_dec : EqDecision event.
Proof. solve_decision. Defined.

Record world := World {
  store : gmap string entry;   (* the keyspace *)
  now : Z;                     (* wall clock, milliseconds *)
  online : nat -> bool;        (* is the store reachable at interaction n? *)
  tick : nat;                  (* number of interactions with the store so far *)
  journal : list event;        (* most recent first *)
}.

Definition with_store (f : gmap string entry -> gmap string entry) (w : world) : world :=
  World (f (store w)) (now w) (online w) (tick w) (journal w).

Definition record (ev : event) (w : world) : world :=
  World (store w) (now w) (online w) (tick w) (ev :: journal w).

Definition advance (w : world) : world :=
  World (store w) (now w) (online w) (S (tick w)) (journal w).

(** Time passing between two calls: [dt] milliseconds later. *)
Definition elapse (dt : Z) (w : world) : world :=
  World (store w) (now w + dt) (online w) (tick w) (journal w).

Definition alive (t : Z) (e : entry) : bool :=
  match deadline e with
  | None => true
  | Some d => t <? d
  end.

(** The keyspace as the commands see it: a key past its deadline is gone. *)
Definition peek (w : world) (key : string) : option entry :=
  match store w !! key with
  | Some e => if alive (now w) e then Some e else None
  | None => None
  end.

Definition live_keys (w : world) : list string :=
  (map_to_list (filter (fun ke => alive (now w) (snd ke) = true) (store w))).*1.

(** ** The monad of [async] functions: state and exceptions *)

Inductive exn :=
| ConnectionError                 (* the store cannot be reached *)
| ReplyError (message : string)   (* the store answered with an error *)
| TypeError                       (* an argument that is not a string *)
| SyntaxError                     (* [JSON.parse] *)
| Rejection.                      (* the producer rejected *)

Inductive result (A : Type) :=
| Ok (a : A)
| Thrown (e : exn).
Arguments Ok {A} a.
Arguments Thrown {A} e.

Definition M (A : Type) : Type := world -> result A * world.

Definition ret {A} (a : A) : M A := fun w => (Ok a, w).
Definition throw {A} (e : exn) : M A := fun w => (Thrown e, w).

Definition bind {A B} (m : M A) (k : A -> M B) : M B :=
  fun w =>
    match m w with
    | (Ok a, w') => k a w'
    | (Thrown e, w') => (Thrown e, w')
    end.

(** [try { m } catch (error) { h error }]: what [m] did to the world before it
    threw stays done. *)
Definition try_catch {A} (m : M A) (h : exn -> M A) : M A :=
  fun w =>
    match m w with
    | (Ok a, w') => (Ok a, w')
    | (Thrown e, w') => h e w'
    end.

Notation "x <- m ;; k" := (bind m (fun x => k))
  (at level 100, m at next level, right associativity).

(** [Date.now()] *)
Definition Date_now : M Z := fun w => (Ok (now w), w).

(** [getRedis()] of [app/lib/redis.ts]: hands out the shared client, or throws
    when the connection cannot be (re)established. *)
Definition getRedis : M unit :=
  fun w =>
    if online w (tick w) then (Ok tt, advance w)
    else (Thrown ConnectionError, advance w).

(** ** The commands of the store *)

Module Redis.

  (** A command is journalled when it is issued; it runs only if the store is
      reachable then, and a command that does not reach the store leaves the
      keyspace as it was. *)
Definition issue {A} (ev : event) (run : world -> result A * world) : M A :=
    fun w =>
      let w1 := record ev (advance w) in
      if online w (tick w) then run w1 else (Thrown ConnectionError, w1).

Definition get (key : string) : M (option string) :=
    issue (GET key) (fun w => (Ok (data <$> peek w key), w)).

  (** [SETEX key seconds value]; the client refuses a value that is not a
      string, the store refuses a lifetime that is not positive. *)
Definition setEx (key : string) (seconds : Z) (text : option string) : M unit :=
    match text with
    | None => throw TypeError
    | Some d =>
        issue (SETEX key seconds d) (fun w =>
          if seconds <=? 0
          then (Thrown (ReplyError "ERR invalid expire time in 'setex' command"), w)
          else (Ok tt,
                with_store (insert key (Entry d (Some (now w + seconds * 1000)))) w))
    end.

  (** [SET key value NX EX seconds]: ["OK"], or [null] when the key exists. *)
Definition setNX (key : string) (text : option string) (seconds : Z)
    : M (option string) :=
    match text with
    | None => throw TypeError
    | Some d =>
        issue (SETNX key seconds d) (fun w =>
          if seconds <=? 0
          then (Thrown (ReplyError "ERR invalid expire time in 'set' command"), w)
          else
            match peek w key with
            | Some _ => (Ok None, w)
            | None =>
                (Ok (Some "OK"),
                 with_store (insert key (Entry d (Some (now w + seconds * 1000)))) w)
            end)
    end.

  (** [DEL key ...]: the number of keys that were there. *)
Fixpoint del_keys (keys : list string) (w : world) : Z * world :=
    match keys with
    | [] => (0, w)
    | k :: rest =>
        let hit := match peek w k with Some _ => 1 | None => 0 end in
        let '(n, w') := del_keys rest (with_store (delete k) w) in
        (hit + n, w')
    end.

Definition del (keys : list string) : M Z :=
    issue (DEL keys) (fun w => let '(n, w') := del_keys keys w in (Ok n, w')).

Definition keys (pattern : string) : M (list string) :=
    issue (KEYS pattern) (fun w => (Ok (filter (fun k => stringmatch pattern k = true) (live_keys w)), w)).

Definition exists_ (key : string) : M Z :=
    issue (EXISTS key) (fun w => (Ok (match peek w key with Some _ => 1 | None => 0 end), w)).

  (** [INCR key]: an absent key counts from 0; the deadline of a present key
      is kept. *)
Definition incr (key : string) : M Z :=
    issue (INCR key) (fun w =>
      match peek w key with
      | None => (Ok 1, with_store (insert key (Entry "1" None)) w)
      | Some e =>
          match string2ll (data e) with
          | None => (Thrown (ReplyError "ERR value is not an integer or out of range"), w)
          | Some n =>
              if n =? LLONG_MAX
              then (Thrown (ReplyError "ERR increment or decrement would overflow"), w)
              else (Ok (n + 1),
                    with_store (insert key (Entry (Number_toString (n + 1)) (deadline e))) w)
          end
      end).

  (** [EXPIRE key seconds]: [false] when the key is absent; a lifetime that is
      not positive deletes the key. *)
Definition expire (key : string) (seconds : Z) : M bool :=
    issue (EXPIRE key seconds) (fun w =>
      match peek w key with
      | None => (Ok false, w)
      | Some e =>
          if seconds <=? 0 then (Ok true, with_store (delete key) w)
          else (Ok true,
                with_store (insert key (Entry (data e) (Some (now w + seconds * 1000)))) w)
      end).

End Redis.

(** ** [app/lib/cache.ts] *)

(** The producer handed to [getOrSet], by what one invocation of it does:
    resolve to a value, or reject. *)
Inductive fetcher (value : Type) :=
| Resolves (v : value)
| Rejects.
Arguments Resolves {value} v.
Arguments Rejects {value}.

(** [await fetcher()]: the invocation is journalled. *)
Definition call {value} (f : fetcher value) : M value :=
  fun w =>
    match f with
    | Resolves v => (Ok v, record Fetch w)
    | Rejects => (Thrown Rejection, record Fetch w)
    end.

Module CacheKeys.
Definition ticketsList (userId role : string) : string := "tickets:" +:+ role +:+ ":" +:+ userId.
Definition ticketDetail (ticketId : string) : string := "ticket:" +:+ ticketId.
Definition ticketReplies (ticketId : string) : string := "ticket:" +:+ ticketId +:+ ":replies".
Definition propertiesList (userId role : string) : string := "properties:" +:+ role +:+ ":" +:+ userId.
Definition propertyDetail (propertyId : string) : string := "property:" +:+ propertyId.
Definition invoicesList (userId role : string) : string := "invoices:" +:+ role +:+ ":" +:+ userId.
Definition invoiceDetail (invoiceId : string) : string := "invoice:" +:+ invoiceId.
Definition inspectionsList (userId role : string) : string := "inspections:" +:+ role +:+ ":" +:+ userId.
Definition rateLimit (userId action : string) : string := "ratelimit:" +:+ action +:+ ":" +:+ userId.
Definition session (userId : string) : string := "session:" +:+ userId.
End CacheKeys.

Module CacheTTL.
Definition SHORT : Z := 60.
Definition MEDIUM : Z := 300.
Definition LONG : Z := 3600.
Definition DAY : Z := 86400.
Definition RATE_LIMIT : Z := 60.
End CacheTTL.

Module CacheService.
Section CacheService.
Context {value : Type} `{JS value}.

  (** [JSON.parse(data) as T] *)
Definition parse (text : string) : M value :=
    match JSON_parse text with
    | Some v => ret v
    | None => throw SyntaxError
    end.

Definition get (key : string) : M value :=
    try_catch
      (_ <- getRedis ;;
       data <- Redis.get key ;;
       match data with
       | None => ret null            (* [!data]: no such key *)
       | Some "" => ret null         (* [!data]: the empty string is falsy *)
       | Some text => parse text
       end)
      (fun _ => ret null).

Definition set (key : string) (v : value) (ttl : Z) : M bool :=
    try_catch
      (_ <- getRedis ;;
       let data := JSON_stringify v in
       _ <- Redis.setEx key ttl data ;;
       ret true)
      (fun _ => ret false).

Definition del (key : string) : M bool :=
    try_catch
      (_ <- getRedis ;;
       _ <- Redis.del [key] ;;
       ret true)
      (fun _ => ret false).

Definition delPattern (pattern : string) : M Z :=
    try_catch
      (_ <- getRedis ;;
       keys <- Redis.keys pattern ;;
       if (length keys =? 0)%nat then ret 0
       else
         _ <- Redis.del keys ;;
         ret (Z.of_nat (length keys)))
      (fun _ => ret 0).

Definition exists_ (key : string) : M bool :=
    try_catch
      (_ <- getRedis ;;
       result <- Redis.exists_ key ;;
       ret (result =? 1))
      (fun _ => ret false).

Definition setNX (key : string) (v : value) (ttl : Z) : M bool :=
    try_catch
      (_ <- getRedis ;;
       let data := JSON_stringify v in
       result <- Redis.setNX key data ttl ;;
       ret (bool_decide (result = Some "OK")))
      (fun _ => ret false).

Definition incr (key : string) : M Z :=
    try_catch
      (_ <- getRedis ;;
       Redis.incr key)
      (fun _ => ret 0).

Definition expire (key : string) (ttl : Z) : M bool :=
    try_catch
      (_ <- getRedis ;;
       result <- Redis.expire key ttl ;;
       ret result)
      (fun _ => ret false).

Definition getOrSet (key : string) (f : fetcher value) (ttl : Z) : M value :=
    cached <- get key ;;
    if decide (cached <> null) then ret cached
    else
      try_catch
        (data <- call f ;;
         _ <- set key data ttl ;;
         ret data)
        (fun _ => ret null).

End CacheService.
End CacheService.

(** ** [app/lib/rate-limit.ts] *)

Record verdict := Verdict {
  allowed : bool;
  remaining : Z;
  resetAt : Z;
  current : Z;
}.

(** The body and the response of [NextResponse.json(body, { status, headers })]. *)
Record details := Details {
  limit : Z;
  details_remaining : Z;
  details_resetAt : Z;
  retryAfter : Z;
}.

Record response := Response {
  status : Z;
  headers : list (string * string);
  error : string;
  body_details : details;
}.

(** [Math.ceil(a / b)] for integers [a] and a positive [b]. *)
Definition ceil_div (a b : Z) : Z := - ((- a) / b).

Module RateLimiter.

Definition check (userId action : string) (maxRequests windowSeconds : Z)
    : M verdict :=
    try_catch
      (let key := CacheKeys.rateLimit userId action in
       count <- CacheService.incr key ;;
       _ <- (if count =? 1
             then (_ <- CacheService.expire key windowSeconds ;; ret tt)
             else ret tt) ;;
       let remaining := Z.max 0 (maxRequests - count) in
       t <- Date_now ;;
       let resetAt := t + windowSeconds * 1000 in
       ret (Verdict (count <=? maxRequests) remaining resetAt count))
      (fun _ =>
         t <- Date_now ;;
         ret (Verdict true maxRequests (t + windowSeconds * 1000) 0)).

Definition middleware (userId action : string) (maxRequests windowSeconds : Z)
    : M (option response) :=
    result <- check userId action maxRequests windowSeconds ;;
    if negb (allowed result) then
      t <- Date_now ;;
      let retryAfter := ceil_div (resetAt result - t) 1000 in
      ret (Some (Response 429
                   [("X-RateLimit-Limit", Number_toString maxRequests);
                    ("X-RateLimit-Remaining", "0");
                    ("X-RateLimit-Reset", Number_toString (resetAt result));
                    ("Retry-After", Number_toString retryAfter)]
                   "Too many requests. Please try again later."
                   (Details maxRequests 0 (resetAt result) retryAfter)))
    else ret None.

End RateLimiter.

(** The table of limits and the helper that reads it. *)
Record policy := Policy { max : Z; window : Z }.

Module RateLimitConfig.

Inductive action :=
| createTicket | updateTicket | postReply | createProperty
| createInvoice | createInspection | default.

Definition lookup (a : action) : policy :=
  match a with
  | createTicket => Policy 5 60
  | updateTicket => Policy 10 60
  | postReply => Policy 10 60
  | createProperty => Policy 3 60
  | createInvoice => Policy 5 60
  | createInspection => Policy 3 60
  | default => Policy 20 60
  end.

Definition name (a : action) : string :=
  match a with
  | createTicket => "createTicket"
  | updateTicket => "updateTicket"
  | postReply => "postReply"
  | createProperty => "createProperty"
  | createInvoice => "createInvoice"
  | createInspection => "createInspection"
  | default => "default"
  end.

End RateLimitConfig.

Definition applyRateLimit (userId : string) (a : RateLimitConfig.action)
  : M (option response) :=
  let config := RateLimitConfig.lookup a in
  RateLimiter.middleware userId (RateLimitConfig.name a) (max config) (window config).

(** ** A concrete codec: the scalars of JSON

    Used to run the embedding on examples: [undefined] has no JSON text,
    [null], the booleans and the integers are written as JSON writes them,
    and [JSON_parse] reads these texts back and refuses any other. *)

Inductive scalar :=
| JUndefined
| JNull
| JBool (b : bool)
| JNumber (n : Z).

#[global] Instance scalar_eq_dec : EqDecision scalar.
Proof. solve_decision. Defined.

Definition scalar_stringify (v : scalar) : option string :=
  match v with
  | JUndefined => None
  | JNull => Some "null"
  | JBool true => Some "true"
  | JBool false => Some "false"
  | JNumber n => Some (Number_toString n)
  end.

Definition scalar_parse (text : string) : option scalar :=
  if decide (text = "null") then Some JNull
  else if decide (text = "true") then Some (JBool true)
  else if decide (text = "false") then Some (JBool false)
  else JNumber <$> string2ll text.

#[global] Instance scalar_JS : JS scalar := {
  null := JNull;
  JSON_stringify := scalar_stringify;
  JSON_parse := scalar_parse;
}.

(** A fresh world: empty keyspace, clock at [t], a store that is reachable
    exactly at the interactions [sched] says. *)
Definition boot (t : Z) (sched : nat -> bool) : world :=
  World ∅ t sched 0 [].

Definition always (b : bool) : nat -> bool := fun _ => b.

(** The keyspace of the pattern-invalidation scenario. *)
Definition ns_world : world :=
  World (list_to_map [("ns:a:1", Entry "1" None); ("ns:a:2", Entry "2" None);
                      ("ns:b:1", Entry "3" None)])
        0 (always true) 0 [].

(** A keyspace whose only entry is not JSON. *)
Definition garbled_world : world :=
  World {["ticket:42" := Entry "{oops" None]} 0 (always true) 0 [].

(** Number of producer invocations in the journal. *)
Definition fetches (w : world) : nat :=
  length (filter (fun ev => ev = Fetch) (journal w)).

(** The [EXPIRE] commands issued for a key. *)
Definition expires (key : string) (w : world) : list Z :=
  omap (fun ev => match ev with
                  | EXPIRE k s => if decide (k = key) then Some s else None
                  | _ => None
                  end) (journal w).

Definition reachable (w : world) : Prop := forall i, online w i = true.
Definition unreachable (w : world) : Prop := forall i, online w i = false.

(** A client calling [getOrSet] on one key again and again: each request
    comes [delay] milliseconds after the previous one returned. *)
Record request (value : Type) := Request {
  delay : Z;
  producer : fetcher value;
  ttl : Z;
}.
Arguments Request {value} delay producer ttl.
Arguments delay {value} r.
Arguments producer {value} r.
Arguments ttl {value} r.

Fixpoint session {value : Type} `{JS value} (key : string)
    (requests : list (request value)) (w : world) : list (result value) * world :=
  match requests with
  | [] => ([], w)
  | q :: rest =>
      let '(r, w1) := CacheService.getOrSet key (producer q) (ttl q) (elapse (delay q) w) in
      let '(rs, w2) := session key rest w1 in
      (r :: rs, w2)
  end.

(** A client calling [check] again and again, with the same limit. *)
Fixpoint burst (userId action : string) (maxRequests windowSeconds : Z)
    (delays : list Z) (w : world) : list (result verdict) * world :=
  match delays with
  | [] => ([], w)
  | dt :: rest =>
      let '(r, w1) := RateLimiter.check userId action maxRequests windowSeconds (elapse dt w) in
      let '(rs, w2) := burst userId action maxRequests windowSeconds rest w1 in
      (r :: rs, w2)
  end.

(** ** Observations the properties are stated with *)

(** What [get] makes of the entry under a key. *)
Definition decode {value : Type} `{JS value} (o : option entry) : value :=
  match o with
  | None => null
  | Some e =>
      match data e with
      | "" => null
      | text =>
          match JSON_parse text with
          | Some v => v
          | None => null
          end
      end
  end.

(** Under [key] there is nothing but the text of [null]. *)
Definition holds_null (key : string) (w : world) : Prop :=
  forall e, store w !! key = Some e -> data e = "null".

(** The world after the conditional [expire] of [check]. *)
Definition after_expire (key : string) (count windowSeconds : Z) (w : world) : world :=
  if count =? 1 then snd (CacheService.expire key windowSeconds w) else w.

(** What a caller looks at in a verdict: [allowed], [remaining], [current]. *)
Definition summary (r : result verdict) : option (bool * Z * Z) :=
  match r with
  | Ok v => Some (allowed v, remaining v, current v)
  | Thrown _ => None
  end.

(** The summaries of [n] requests that find the counter at [c]. *)
Fixpoint counts (maxRequests c : Z) (n : nat) : list (option (bool * Z * Z)) :=
  match n with
  | O => []
  | S n' =>
      Some (c + 1 <=? maxRequests, Z.max 0 (maxRequests - (c + 1)), c + 1)
      :: counts maxRequests (c + 1) n'
  end.

Definition total (delays : list Z) : Z := foldr Z.add 0 delays.

(** The live keys a pattern selects, as [KEYS] lists them. *)
Definition matching (pattern : string) (w : world) : list string :=
  filter (fun k => stringmatch pattern k = true) (live_keys w).

(** ** Observations for the further properties *)

(** What the producer leaves [getOrSet] with on a miss. *)
Definition outcome {value : Type} `{JS value} (f : fetcher value) : result value :=
  match f with
  | Resolves v => Ok v
  | Rejects => Ok null
  end.


(** The store is reachable from now on (whatever happened before). *)
Definition reachable_from (w : world) : Prop :=
  forall i, (tick w <= i)%nat -> online w i = true.

(** The count [incr] returns on a reachable store, by what it finds under
    the key. *)
Definition next_count (found : option entry) : Z :=
  match found with
  | None => 1
  | Some e =>
      match string2ll (data e) with
      | None => 0
      | Some n => if n =? LLONG_MAX then 0 else n + 1
      end
  end.

(** The verdict [check] derives from a count. *)
Definition verdict_of (maxRequests windowSeconds t count : Z) : verdict :=
  Verdict (count <=? maxRequests) (Z.max 0 (maxRequests - count))
          (t + windowSeconds * 1000) count.


(** A string in which the character [c] does not occur. *)
Fixpoint free_of (c : ascii) (s : string) : bool :=
  match s with
  | EmptyString => true
  | String x rest => negb (Ascii.eqb x c) && free_of c rest
  end.

(** A client going through [applyRateLimit] again and again. *)
Fixpoint flood (userId : string) (a : RateLimitConfig.action)
    (delays : list Z) (w : world) : list (result (option response)) * world :=
  match delays with
  | [] => ([], w)
  | dt :: rest =>
      let '(r, w1) := applyRateLimit userId a (elapse dt w) in
      let '(rs, w2) := flood userId a rest w1 in
      (r :: rs, w2)
  end.

(** What [middleware] answers to a verdict. *)
Definition respond (maxRequests windowSeconds : Z) (r : result verdict)
  : result (option response) :=
  match r with
  | Ok v =>
      Ok (if allowed v then None
          else Some (Response 429
                 [("X-RateLimit-Limit", Number_toString maxRequests);
                  ("X-RateLimit-Remaining", "0");
                  ("X-RateLimit-Reset", Number_toString (resetAt v));
                  ("Retry-After", Number_toString windowSeconds)]
                 "Too many requests. Please try again later."
                 (Details maxRequests 0 (resetAt v) windowSeconds)))
  | Thrown e => Thrown e
  end.

(** A character, and a string, that a pattern takes literally. *)
Definition plain (x : ascii) : bool :=
  negb (Ascii.eqb x "*") && negb (Ascii.eqb x "?")
  && negb (Ascii.eqb x "[") && negb (Ascii.eqb x "\").

Fixpoint glob_plain (s : string) : bool :=
  match s with
  | EmptyString => true
  | String x rest => plain x && glob_plain rest
  end.

(** ** The ticket service (its use of the cache)

    [getTicketsByUser] and [invalidateTicketCache] of the ticket service.  The
    database is not part of the model: the closure handed to [getOrSet] is
    given by what one invocation of it does, as a function of the page, the
    page size and the offset it captures. *)

Module TicketService.

(** The local constant [cacheKey] of [getTicketsByUser]. *)
Definition cacheKey (userId role : string) (page pageSize : Z) : string :=
  CacheKeys.ticketsList userId role
  +:+ ":p" +:+ Number_toString page +:+ ":s" +:+ Number_toString pageSize.

(** The local constant [pattern] of [invalidateTicketCache]. *)
Definition pattern (userId role : string) : string :=
  CacheKeys.ticketsList userId role +:+ ":*".

(** [options?.page || 1]: an absent or zero number gives way to the default. *)
Definition or_default (given : option Z) (d : Z) : Z :=
  match given with
  | Some n => if n =? 0 then d else n
  | None => d
  end.

Section TicketService.
Context {value : Type} `{JS value}.
(** the values [x] for which [x || y] is [y] *)
Variable falsy : value -> bool.
(** [{ data: [], pagination: { page, pageSize, total: 0, totalPages: 0 } }] *)
Variable emptyPage : Z -> Z -> value.

Definition getTicketsByUser (userId role : string) (page pageSize : option Z)
    (query : Z -> Z -> Z -> fetcher value) : M value :=
  let page := or_default page 1 in
  let pageSize := or_default pageSize 10 in
  let skip := (page - 1) * pageSize in
  let cacheKey := cacheKey userId role page pageSize in
  result <- CacheService.getOrSet cacheKey (query page pageSize skip) CacheTTL.SHORT ;;
  ret (if falsy result then emptyPage page pageSize else result).

End TicketService.

Definition invalidateTicketCache (userId role : string) : M unit :=
  try_catch
    (let pattern := pattern userId role in
     _ <- CacheService.delPattern pattern ;;
     ret tt)
    (fun _ => ret tt).

End TicketService.

(** ** [app/lib/redis.ts]: the connection manager

    The singleton by itself: what it holds, and what [getClient] and
    [disconnect] do to it.  Whether a connection attempt succeeds is read
    from [link], by the number of the attempt; [meanwhile] is what the other
    tasks of the event loop do to the manager during one 100 ms sleep of a
    polling caller. *)

Module RedisClient.

Record manager := Manager {
  client : option bool;    (* the client, if any, with its [isOpen] *)
  isConnecting : bool;
  attempts : nat;          (* connections attempted so far *)
}.

Inductive reply :=
| Returned      (* [getClient] returned [this.client] *)
| Threw         (* the connection failed, [getClient] threw *)
| Polling.      (* still asleep in the polling loop when the fuel ran out *)

(** [this.client?.isOpen] *)
Definition isOpen (m : manager) : bool :=
  match client m with
  | Some open => open
  | None => false
  end.

Fixpoint getClient (link : nat -> bool) (meanwhile : manager -> manager)
    (fuel : nat) (m : manager) : reply * manager :=
  if isOpen m then (Returned, m)
  else if isConnecting m then
    match fuel with
    | O => (Polling, m)
    | S fuel' => getClient link meanwhile fuel' (meanwhile m)
    end
  else
    (* [isConnecting = true] while [createClient] and [connect] run; the
       [finally] clause puts it back *)
    if link (attempts m)
    then (Returned, Manager (Some true) false (S (attempts m)))
    else (Threw, Manager None false (S (attempts m))).

(** [disconnect]: [quit] is taken to succeed. *)
Definition disconnect (m : manager) : manager :=
  if isOpen m then Manager None (isConnecting m) (attempts m) else m.

(** [reconnectStrategy]: [None] for [false] (stop retrying), else the delay
    in milliseconds. *)
Definition reconnectStrategy (retries : Z) : option Z :=
  if 2 <? retries then None else Some (Z.min (retries * 100) 1000).

(** Calling [getClient] [n] times in a row. *)
Fixpoint calls (link : nat -> bool) (n : nat) (m : manager) : list reply * manager :=
  match n with
  | O => ([], m)
  | S n' =>
      let '(r, m1) := getClient link id 0 m in
      let '(rs, m2) := calls link n' m1 in
      (r :: rs, m2)
  end.

End RedisClient.

(** ** Further concrete inputs *)

(** Falsiness of the scalars: [undefined], [null], [false] and [0]. *)
Definition scalar_falsy (v : scalar) : bool :=
  match v with
  | JUndefined | JNull | JBool false | JNumber 0 => true
  | _ => false
  end.

(** A store reachable at every interaction but the one numbered [n]. *)
Definition except (n : nat) : nat -> bool := fun i => negb (i =? n)%nat.

(** A counter key that holds cached JSON instead of a count. *)
Definition clobbered_world : world :=
  World {[CacheKeys.rateLimit "agent-1" "createTicket" := Entry "null" None]}
        0 (always true) 0 [].

(** * Properties *)

(** ** The pattern matcher *)

Example stringmatch_examples :
  stringmatch "ns:a:*" "ns:a:1" = true /\ stringmatch "ns:a:*" "ns:b:1" = false /\
  stringmatch "h?llo" "hallo" = true /\ stringmatch "h[ae]llo" "hillo" = false /\
  stringmatch "h[^e]llo" "hallo" = true /\ stringmatch "h[a-c]llo" "hbllo" = true /\
  stringmatch "a\*b" "a*b" = true /\ stringmatch "a\*b" "axb" = false /\
  stringmatch "*" "" = true /\ stringmatch "a*b*c" "axxbyyc" = true.
Proof. vm_compute. repeat split. Qed.

(** *** The fuel of [stringmatch] is enough *)

Lemma glob_class_length_aux n : forall p c b,
  (length p <= n)%nat -> (length (snd (glob_class p c b)) <= length p)%nat.
Proof.
  induction n as [|n IH]; intros p c b Hn.
  - destruct p; [simpl; lia | simpl in Hn; lia].
  - destruct p as [|x rest]; [simpl; lia|].
    cbn [length] in Hn |- *. cbn [glob_class].
    destruct (Ascii.eqb x "]"); [simpl; lia|].
    assert (Hrec : forall q b', (length q <= length rest)%nat ->
               (length (snd (glob_class q c b')) <= S (length rest))%nat).
    { intros q b' Hq. etransitivity; [apply IH; lia | lia]. }
    destruct rest as [|y rest']; [apply Hrec; lia|].
    destruct (Ascii.eqb x "\"); [apply Hrec; simpl; lia|].
    destruct rest' as [|hi rest'']; [apply Hrec; lia|].
    destruct (Ascii.eqb y "-"); apply Hrec; simpl; lia.
Qed.

Lemma glob_class_length p c b :
  (length (snd (glob_class p c b)) <= length p)%nat.
Proof. now apply (glob_class_length_aux (length p)). Qed.

Lemma glob_fuel_enough n : forall m p s,
  (length p < n)%nat -> (length p < m)%nat ->
  glob_fuel n p s = glob_fuel m p s.
Proof.
  induction n as [|n IH]; intros m p s Hn Hm; [lia|].
  destruct m as [|m]; [lia|].
  destruct p as [|x p]; [reflexivity|].
  simpl in Hn, Hm. cbn [glob_fuel].
  destruct (Ascii.eqb x "*").
  { induction s as [|c s IHs].
    - now rewrite (IH m p []) by lia.
    - rewrite (IH m p (c :: s)) by lia. now rewrite IHs. }
  destruct s as [|c s]; [reflexivity|].
  destruct (Ascii.eqb x "?"); [apply IH; lia|].
  destruct (Ascii.eqb x "[").
  { set (negated := match p with n0 :: _ => Ascii.eqb n0 "^" | [] => false end).
    set (body := if negated then tl p else p).
    assert (Hbody : (length body <= length p)%nat)
      by (subst body; destruct negated, p; simpl; lia).
    pose proof (glob_class_length body c false) as Hlen.
    destruct (glob_class body c false) as [found rest]; simpl in Hlen.
    destruct (xorb negated found); [apply IH; lia | reflexivity]. }
  destruct p as [|y p].
  - destruct (Ascii.eqb x c); [apply IH; simpl; lia | reflexivity].
  - simpl in Hn, Hm.
    destruct (Ascii.eqb x "\").
    + destruct (Ascii.eqb y c); [apply IH; lia | reflexivity].
    + destruct (Ascii.eqb x c); [apply IH; simpl; lia | reflexivity].
Qed.

(** Any larger amount of fuel gives the answer of [stringmatch]. *)
Lemma stringmatch_fuel pattern key n :
  (length (list_ascii_of_string pattern) < n)%nat ->
  glob_fuel n (list_ascii_of_string pattern) (list_ascii_of_string key)
  = stringmatch pattern key.
Proof. intros Hn. unfold stringmatch. apply glob_fuel_enough; lia. Qed.

(** ** What one call of a [CacheService] method does

    Each method is unfolded once and for all into an equation on worlds: the
    two interactions it needs ([getRedis()], then the command) are looked up
    in the schedule. *)

Ltac unfold_monad :=
  unfold try_catch, bind, ret, throw, getRedis, Redis.issue, Date_now, call.

Section Equations.
Context {value : Type} `{JS value}.

Lemma get_eq key w :
  CacheService.get key w =
  if online w (tick w) then
    (if online w (S (tick w)) then Ok (decode (peek w key)) else Ok null,
     record (GET key) (advance (advance w)))
  else (Ok null, advance w).
Proof.
  unfold CacheService.get, Redis.get, CacheService.parse. unfold_monad.
  destruct (online w (tick w)); [|reflexivity].
  unfold advance at 1 2. cbn [online tick].
  destruct (online w (S (tick w))); [|reflexivity].
  change (peek (record (GET key) (advance (advance w))) key) with (peek w key).
  unfold decode. destruct (peek w key) as [e|]; [|reflexivity].
  cbn [fmap option_fmap option_map].
  destruct (data e) as [|a text]; [reflexivity|].
  destruct (JSON_parse (String a text)); reflexivity.
Qed.

Lemma set_eq key (v : value) ttl w :
  CacheService.set key v ttl w =
  if online w (tick w) then
    match JSON_stringify v with
    | None => (Ok false, advance w)
    | Some d =>
        let w1 := record (SETEX key ttl d) (advance (advance w)) in
        if online w (S (tick w)) then
          if ttl <=? 0 then (Ok false, w1)
          else (Ok true,
                with_store (insert key (Entry d (Some (now w + ttl * 1000)))) w1)
        else (Ok false, w1)
    end
  else (Ok false, advance w).
Proof.
  unfold CacheService.set, Redis.setEx. unfold_monad.
  destruct (online w (tick w)); [|reflexivity].
  destruct (JSON_stringify v) as [d|]; [|reflexivity].
  unfold advance at 1 2. cbn [online tick].
  destruct (online w (S (tick w))); [|reflexivity].
  destruct (ttl <=? 0); reflexivity.
Qed.

End Equations.

Lemma incr_eq key w :
  CacheService.incr key w =
  if online w (tick w) then
    let w1 := record (INCR key) (advance (advance w)) in
    if online w (S (tick w)) then
      match peek w key with
      | None => (Ok 1, with_store (insert key (Entry "1" None)) w1)
      | Some e =>
          match string2ll (data e) with
          | None => (Ok 0, w1)
          | Some n =>
              if n =? LLONG_MAX then (Ok 0, w1)
              else (Ok (n + 1),
                    with_store (insert key (Entry (Number_toString (n + 1)) (deadline e))) w1)
          end
      end
    else (Ok 0, w1)
  else (Ok 0, advance w).
Proof.
  unfold CacheService.incr, Redis.incr. unfold_monad.
  destruct (online w (tick w)); [|reflexivity].
  unfold advance at 1 2. cbn [online tick].
  destruct (online w (S (tick w))); [|reflexivity].
  change (peek (record (INCR key) (advance (advance w))) key) with (peek w key).
  cbv zeta.
  destruct (peek w key) as [e|]; [|reflexivity].
  destruct (string2ll (data e)) as [n|]; [|reflexivity].
  destruct (n =? LLONG_MAX); reflexivity.
Qed.

Lemma expire_eq key ttl w :
  CacheService.expire key ttl w =
  if online w (tick w) then
    let w1 := record (EXPIRE key ttl) (advance (advance w)) in
    if online w (S (tick w)) then
      match peek w key with
      | None => (Ok false, w1)
      | Some e =>
          if ttl <=? 0 then (Ok true, with_store (delete key) w1)
          else (Ok true,
                with_store (insert key (Entry (data e) (Some (now w + ttl * 1000)))) w1)
      end
    else (Ok false, w1)
  else (Ok false, advance w).
Proof.
  unfold CacheService.expire, Redis.expire. unfold_monad.
  destruct (online w (tick w)); [|reflexivity].
  unfold advance at 1 2. cbn [online tick].
  destruct (online w (S (tick w))); [|reflexivity].
  change (peek (record (EXPIRE key ttl) (advance (advance w))) key) with (peek w key).
  cbv zeta.
  destruct (peek w key) as [e|]; [|reflexivity].
  destruct (ttl <=? 0); reflexivity.
Qed.

(** ** Counters are kept in decimal *)

Lemma string2ll_toString z :
  LLONG_MIN <= z <= LLONG_MAX -> string2ll (Number_toString z) = Some z.
Proof.
  intros Hz. unfold string2ll, Number_toString.
  rewrite NilZero.isi.
  - rewrite DecimalZ.of_to. rewrite decide_True; [reflexivity | split; [reflexivity | exact Hz]].
  - destruct z; simpl; intros [= E]. now apply Unsigned.to_uint_nonnil in E.
  - destruct z; simpl; intros [= E]. now apply Unsigned.to_uint_nonnil in E.
Qed.

(** ** The read path *)

Section ReadThrough.
Context {value : Type} `{JS value}.

Lemma get_never_throws key w :
  exists v, fst (CacheService.get key w) = Ok v.
Proof.
  rewrite get_eq.
  destruct (online w (tick w)), (online w (S (tick w))); cbn [fst]; eauto.
Qed.

Lemma get_store key w : store (snd (CacheService.get key w)) = store w.
Proof. rewrite get_eq. destruct (online w (tick w)); reflexivity. Qed.

Lemma get_now key w : now (snd (CacheService.get key w)) = now w.
Proof. rewrite get_eq. destruct (online w (tick w)); reflexivity. Qed.

Lemma get_fetches key w : fetches (snd (CacheService.get key w)) = fetches w.
Proof. rewrite get_eq. destruct (online w (tick w)); reflexivity. Qed.

Lemma set_never_throws key (v : value) ttl w :
  exists b, fst (CacheService.set key v ttl w) = Ok b.
Proof.
  rewrite set_eq.
  destruct (online w (tick w)); [|cbn; eauto].
  destruct (JSON_stringify v); [|cbn; eauto].
  cbv zeta. destruct (online w (S (tick w))); [|cbn; eauto].
  destruct (ttl <=? 0); cbn; eauto.
Qed.

Lemma set_fetches key (v : value) ttl w :
  fetches (snd (CacheService.set key v ttl w)) = fetches w.
Proof.
  rewrite set_eq.
  destruct (online w (tick w)); [|reflexivity].
  destruct (JSON_stringify v); [|reflexivity].
  cbv zeta. destruct (online w (S (tick w))); [|reflexivity].
  destruct (ttl <=? 0); reflexivity.
Qed.

(** A failed write leaves the keyspace as it was. *)
Lemma set_false_store key (v : value) ttl w :
  fst (CacheService.set key v ttl w) = Ok false ->
  store (snd (CacheService.set key v ttl w)) = store w.
Proof.
  rewrite set_eq.
  destruct (online w (tick w)); [|reflexivity].
  destruct (JSON_stringify v); [|reflexivity].
  cbv zeta. destruct (online w (S (tick w))); [|reflexivity].
  destruct (ttl <=? 0); [reflexivity | discriminate].
Qed.

Lemma getOrSet_eq key (f : fetcher value) ttl w :
  CacheService.getOrSet key f ttl w =
  match fst (CacheService.get key w) with
  | Ok cached =>
      if decide (cached <> null) then (Ok cached, snd (CacheService.get key w))
      else
        let w1 := record Fetch (snd (CacheService.get key w)) in
        match f with
        | Resolves v => (Ok v, snd (CacheService.set key v ttl w1))
        | Rejects => (Ok null, w1)
        end
  | Thrown e => (Thrown e, snd (CacheService.get key w))
  end.
Proof.
  unfold CacheService.getOrSet, bind at 1.
  destruct (CacheService.get key w) as [[cached|e] w1]; cbn [fst snd]; [|reflexivity].
  destruct (decide (cached <> null)); [reflexivity|].
  unfold try_catch, bind, call, ret. destruct f as [v|]; [|reflexivity].
  destruct (set_never_throws key v ttl (record Fetch w1)) as [b Hb].
  destruct (CacheService.set key v ttl (record Fetch w1)) as [r w2].
  cbn [fst snd] in *. now subst r.
Qed.

(** On a miss the producer runs once, whatever it does. *)
Lemma getOrSet_miss key (f : fetcher value) ttl w :
  fst (CacheService.get key w) = Ok null ->
  CacheService.getOrSet key f ttl w =
  let w1 := record Fetch (snd (CacheService.get key w)) in
  match f with
  | Resolves v => (Ok v, snd (CacheService.set key v ttl w1))
  | Rejects => (Ok null, w1)
  end.
Proof.
  intros Hmiss. rewrite getOrSet_eq, Hmiss.
  rewrite decide_False; [reflexivity | intros Hne; now apply Hne].
Qed.

(** On a hit it does not run. *)
Lemma getOrSet_hit key (f : fetcher value) ttl w cached :
  fst (CacheService.get key w) = Ok cached -> cached <> null ->
  CacheService.getOrSet key f ttl w = (Ok cached, snd (CacheService.get key w)).
Proof.
  intros Hhit Hne. rewrite getOrSet_eq, Hhit. now rewrite decide_True.
Qed.

(** C6.  [get] never raises: whatever the schedule and the keyspace it
    returns a value and leaves the keyspace as it was.  It returns [null],
    the answer it gives for a key that is not there, as soon as one of its two
    interactions with the store fails, and when the text stored under the key
    is not valid JSON. *)
Theorem get_failure_is_a_miss key w :
  (exists v, fst (CacheService.get key w) = Ok v) /\
  store (snd (CacheService.get key w)) = store w /\
  (peek w key = None -> fst (CacheService.get key w) = Ok null) /\
  (online w (tick w) = false \/ online w (S (tick w)) = false ->
   fst (CacheService.get key w) = Ok null) /\
  (forall e, peek w key = Some e -> JSON_parse (data e) = None ->
   fst (CacheService.get key w) = Ok null).
Proof.
  split; [apply get_never_throws|]. split; [apply get_store|].
  rewrite get_eq. repeat split.
  - intros ->. destruct (online w (tick w)), (online w (S (tick w))); reflexivity.
  - intros [-> | Hoff]; [reflexivity|].
    destruct (online w (tick w)); [rewrite Hoff|]; reflexivity.
  - intros e -> Hbad. unfold decode.
    destruct (online w (tick w)), (online w (S (tick w))); try reflexivity.
    cbn [fst]. destruct (data e); [reflexivity|]. now rewrite Hbad.
Qed.

(** C4.  With a producer that rejects, [getOrSet] does not raise and
    leaves the keyspace as it was, in every world.  On a miss the producer is
    invoked once and the result is [null]; and whenever the producer has been
    invoked, the result is [null]. *)
Theorem getOrSet_producer_rejects key ttl w :
  let out := CacheService.getOrSet key (@Rejects value) ttl w in
  store (snd out) = store w /\
  (exists v, fst out = Ok v) /\
  (fst (CacheService.get key w) = Ok null ->
   fst out = Ok null /\ fetches (snd out) = S (fetches w)) /\
  (fetches (snd out) <> fetches w -> fst out = Ok null).
Proof.
  cbv zeta. rewrite getOrSet_eq.
  destruct (get_never_throws key w) as [cached Hget]. rewrite Hget.
  pose proof (get_fetches key w) as Hsame.
  destruct (decide (cached <> null)) as [Hne|Heq]; cbn [fst snd].
  - split; [apply get_store|]. split; [eauto|]. split.
    + intros [= ->]. now contradiction Hne.
    + intros Hcalled. now contradiction Hcalled.
  - split; [apply get_store|]. split; [eauto|]. split; [|reflexivity].
    intros _. split; [reflexivity|].
    change (fetches (record Fetch ?w)) with (S (fetches w)).
    now rewrite Hsame.
Qed.

(** C10.  On a miss with a producer that resolves to [v], [getOrSet] returns
    [v] and ends in the world [set] ends in: the boolean [set] returns is not
    looked at.  In particular, when that write fails (the store is out of
    reach, the lifetime is refused, the value has no JSON text) the caller
    still gets [v], and the keyspace is as it was. *)
Theorem getOrSet_ignores_write_failure key (v : value) ttl w :
  fst (CacheService.get key w) = Ok null ->
  let w1 := record Fetch (snd (CacheService.get key w)) in
  let out := CacheService.getOrSet key (Resolves v) ttl w in
  fst out = Ok v /\
  snd out = snd (CacheService.set key v ttl w1) /\
  (fst (CacheService.set key v ttl w1) = Ok false -> store (snd out) = store w).
Proof.
  intros Hmiss. cbv zeta. rewrite (getOrSet_miss _ _ _ _ Hmiss). cbn [fst snd].
  split; [reflexivity|]. split; [reflexivity|].
  intros Hfail. rewrite (set_false_store _ _ _ _ Hfail).
  cbn [record store]. apply get_store.
Qed.


Lemma get_reachable key w :
  reachable w ->
  CacheService.get key w =
  (Ok (decode (peek w key)), record (GET key) (advance (advance w))).
Proof. intros Hup. rewrite get_eq. now rewrite !Hup. Qed.

Lemma set_reachable key (v : value) ttl text w :
  reachable w -> JSON_stringify v = Some text -> 0 < ttl ->
  CacheService.set key v ttl w =
  (Ok true,
   with_store (insert key (Entry text (Some (now w + ttl * 1000))))
     (record (SETEX key ttl text) (advance (advance w)))).
Proof.
  intros Hup Htext Httl. rewrite set_eq, !Hup, Htext. cbv zeta.
  destruct (Z.leb_spec ttl 0); [lia | reflexivity].
Qed.

Lemma getOrSet_fills key (v : value) ttl text w :
  reachable w -> peek w key = None -> JSON_stringify v = Some text -> 0 < ttl ->
  CacheService.getOrSet key (Resolves v) ttl w =
  (Ok v,
   with_store (insert key (Entry text (Some (now w + ttl * 1000))))
     (record (SETEX key ttl text)
        (advance (advance (record Fetch (record (GET key) (advance (advance w)))))))).
Proof.
  intros Hup Habsent Htext Httl.
  rewrite getOrSet_miss; rewrite (get_reachable _ _ Hup), Habsent; [|reflexivity].
  cbv zeta. cbn [snd].
  now rewrite (set_reachable key v ttl text) by (assumption || exact Hup).
Qed.

Lemma peek_insert_alive key e w f :
  alive (now w) e = true ->
  store w = <[key := e]> f ->
  peek w key = Some e.
Proof.
  intros Halive Hstore. unfold peek. rewrite Hstore, lookup_insert_eq.
  now rewrite Halive.
Qed.

(** C1, amended.  With nothing under the key, [getOrSet] invokes the
    producer exactly once and returns its value [v], whatever [v] and [ttl]
    are and whatever the store does.  If the store is reachable and [v] has a
    JSON text that is not empty and parses back to a value [v'] other than
    [null], then a second [getOrSet] on the key less than [ttl] seconds
    later, with any producer, returns [v'] without invoking it. *)
Theorem read_through key (v : value) ttl w :
  peek w key = None ->
  let first := CacheService.getOrSet key (Resolves v) ttl w in
  (fst first = Ok v /\ fetches (snd first) = S (fetches w)) /\
  (forall v' text f2 ttl2 dt,
     reachable w ->
     JSON_stringify v = Some text -> text <> "" ->
     JSON_parse text = Some v' -> v' <> null ->
     0 <= dt < ttl * 1000 ->
     let second := CacheService.getOrSet key f2 ttl2 (elapse dt (snd first)) in
     fst second = Ok v' /\ fetches (snd second) = fetches (snd first)).
Proof.
  intros Habsent. cbv zeta. split.
  - assert (Hmiss : fst (CacheService.get key w) = Ok null).
    { rewrite get_eq, Habsent.
      destruct (online w (tick w)), (online w (S (tick w))); reflexivity. }
    rewrite (getOrSet_miss _ _ _ _ Hmiss). cbv zeta. cbn [fst snd].
    split; [reflexivity|].
    rewrite set_fetches. unfold fetches at 1. cbn [record journal filter].
    change (S (fetches (snd (CacheService.get key w))) = S (fetches w)).
    now rewrite get_fetches.
  - intros v' text f2 ttl2 dt Hup Htext Hnonempty Hparse Hnonnull Hdt.
    rewrite (getOrSet_fills key v ttl text w) by (assumption || lia).
    cbn [fst snd].
    set (w1 := elapse dt _).
    assert (Hup1 : reachable w1) by exact Hup.
    assert (Hpeek : peek w1 key = Some (Entry text (Some (now w + ttl * 1000)))).
    { eapply peek_insert_alive; [|reflexivity].
      subst w1. unfold alive. cbn. apply Z.ltb_lt. lia. }
    assert (Hhit : fst (CacheService.get key w1) = Ok v').
    { rewrite (get_reachable _ _ Hup1), Hpeek. cbn [fst decode data].
      destruct text; [congruence|]. now rewrite Hparse. }
    rewrite (getOrSet_hit key f2 ttl2 w1 v' Hhit Hnonnull). cbn [fst snd].
    split; [reflexivity|]. now rewrite get_fetches.
Qed.

(** *** A cached [null] *)

Lemma holds_null_miss key w :
  JSON_parse "null" = Some null -> holds_null key w ->
  fst (CacheService.get key w) = Ok null.
Proof.
  intros Hparse Hinv. rewrite get_eq.
  destruct (online w (tick w)); [|reflexivity].
  destruct (online w (S (tick w))); [|reflexivity].
  cbn [fst]. f_equal. unfold decode, peek.
  destruct (store w !! key) as [e|] eqn:He; [|reflexivity].
  destruct (alive (now w) e); [|reflexivity].
  rewrite (Hinv e He). now rewrite Hparse.
Qed.

Lemma set_store_cases key (v : value) ttl w :
  store (snd (CacheService.set key v ttl w)) = store w \/
  exists text d, JSON_stringify v = Some text /\
    store (snd (CacheService.set key v ttl w)) = <[key := Entry text d]> (store w).
Proof.
  rewrite set_eq.
  destruct (online w (tick w)); [|now left].
  destruct (JSON_stringify v) as [text|]; [|now left].
  cbv zeta. destruct (online w (S (tick w))); [|now left].
  destruct (ttl <=? 0); [now left|].
  right. now exists text, (Some (now w + ttl * 1000)).
Qed.

Lemma holds_null_getOrSet key ttl w :
  JSON_stringify null = Some "null" -> holds_null key w ->
  holds_null key (snd (CacheService.getOrSet key (Resolves null) ttl w)).
Proof.
  intros Htext Hinv. rewrite getOrSet_eq.
  destruct (get_never_throws key w) as [cached Hget]. rewrite Hget.
  pose proof (get_store key w) as Hstore.
  destruct (decide (cached <> null)); cbn [snd].
  - intros e. rewrite Hstore. apply Hinv.
  - cbv zeta.
    destruct (set_store_cases key null ttl (record Fetch (snd (CacheService.get key w))))
      as [Hsame | (text & d & Hsome & Hput)]; intros e.
    + rewrite Hsame. cbn [record store]. rewrite Hstore. apply Hinv.
    + rewrite Hput, lookup_insert_eq. intros [= <-]. cbn [data]. congruence.
Qed.

Lemma session_null key (requests : list (request value)) : forall w,
  JSON_stringify null = Some "null" -> JSON_parse "null" = Some null ->
  holds_null key w ->
  Forall (fun q => producer q = Resolves null) requests ->
  Forall (fun r => r = Ok null) (fst (session key requests w)) /\
  fetches (snd (session key requests w)) = (fetches w + length requests)%nat.
Proof.
  induction requests as [|q rest IH]; intros w Htext Hparse Hinv Hall.
  - cbn. split; [constructor | lia].
  - inversion Hall as [|? ? Hq Hrest]; subst.
    cbn [session].
    pose proof (holds_null_getOrSet key (ttl q) (elapse (delay q) w) Htext Hinv) as Hinv1.
    assert (Hmiss : fst (CacheService.get key (elapse (delay q) w)) = Ok null)
      by now apply holds_null_miss.
    pose proof (getOrSet_miss key (producer q) (ttl q) _ Hmiss) as Hcall.
    rewrite Hq in Hcall |- *. cbv zeta in Hcall.
    destruct (CacheService.getOrSet key (Resolves null) (ttl q) (elapse (delay q) w))
      as [r w1] eqn:Hout.
    cbn [snd] in Hinv1.
    destruct (IH w1 Htext Hparse Hinv1 Hrest) as [IHres IHcount].
    destruct (session key rest w1) as [rs w2]. cbn [fst snd length] in *.
    injection Hcall as -> Hw1.
    split; [constructor; [reflexivity | exact IHres]|].
    rewrite IHcount, Hw1, set_fetches.
    change (fetches (record Fetch ?w)) with (S (fetches w)).
    rewrite get_fetches. change (fetches (elapse (delay q) w)) with (fetches w). lia.
Qed.

(** C9.  A producer that resolves to [null] on a fresh key: [getOrSet]
    returns [null] and the store now holds the text of [null] under the key,
    with the lifetime asked for.  [get] reports that entry as absent, so the
    next [getOrSet], at any time and with any producer, invokes its producer;
    and in a run of further requests whose producers resolve to [null], every
    request invokes its producer again. *)
Theorem null_is_never_served key (requests : list (request value)) ttl f2 ttl2 dt w :
  JSON_stringify null = Some "null" -> JSON_parse "null" = Some null ->
  reachable w -> store w !! key = None -> 0 < ttl ->
  Forall (fun q => producer q = Resolves null) requests ->
  let first := CacheService.getOrSet key (Resolves null) ttl w in
  let later := session key requests (snd first) in
  fst first = Ok null /\
  peek (snd first) key = Some (Entry "null" (Some (now w + ttl * 1000))) /\
  fst (CacheService.get key (snd first)) = Ok null /\
  fetches (snd (CacheService.getOrSet key f2 ttl2 (elapse dt (snd first))))
    = S (fetches (snd first)) /\
  Forall (fun r => r = Ok null) (fst later) /\
  fetches (snd later) = (fetches (snd first) + length requests)%nat.
Proof.
  intros Htext Hparse Hup Hfresh Httl Hall. cbv zeta.
  assert (Habsent : peek w key = None) by (unfold peek; now rewrite Hfresh).
  assert (Hinv : holds_null key w) by (intros e He; congruence).
  pose proof (holds_null_getOrSet key ttl w Htext Hinv) as Hinv1.
  rewrite (getOrSet_fills key null ttl "null" w) in * by assumption.
  cbn [fst snd] in *.
  split; [reflexivity|]. split.
  { eapply peek_insert_alive; [|reflexivity]. unfold alive. cbn. apply Z.ltb_lt. lia. }
  split; [now apply holds_null_miss|]. split.
  { rewrite getOrSet_miss by (apply holds_null_miss; [assumption | exact Hinv1]).
    cbv zeta. destruct f2 as [v2|]; cbn [snd]; [rewrite set_fetches|];
      change (fetches (record Fetch ?w)) with (S (fetches w));
      now rewrite get_fetches. }
  now apply session_null.
Qed.
End ReadThrough.

(** ** The rate limiter *)

Lemma incr_never_throws key w : exists n, fst (CacheService.incr key w) = Ok n.
Proof.
  rewrite incr_eq.
  destruct (online w (tick w)); [|cbn; eauto].
  cbv zeta. destruct (online w (S (tick w))); [|cbn; eauto].
  destruct (peek w key) as [e|]; [|cbn; eauto].
  destruct (string2ll (data e)) as [n|]; [|cbn; eauto].
  destruct (n =? LLONG_MAX); cbn; eauto.
Qed.

Lemma expire_never_throws key ttl w : exists b, fst (CacheService.expire key ttl w) = Ok b.
Proof.
  rewrite expire_eq.
  destruct (online w (tick w)); [|cbn; eauto].
  cbv zeta. destruct (online w (S (tick w))); [|cbn; eauto].
  destruct (peek w key) as [e|]; [|cbn; eauto].
  destruct (ttl <=? 0); cbn; eauto.
Qed.

Lemma expire_now key ttl w : now (snd (CacheService.expire key ttl w)) = now w.
Proof.
  rewrite expire_eq.
  destruct (online w (tick w)); [|reflexivity].
  cbv zeta. destruct (online w (S (tick w))); [|reflexivity].
  destruct (peek w key) as [e|]; [|reflexivity].
  destruct (ttl <=? 0); reflexivity.
Qed.

Lemma incr_now key w : now (snd (CacheService.incr key w)) = now w.
Proof.
  rewrite incr_eq.
  destruct (online w (tick w)); [|reflexivity].
  cbv zeta. destruct (online w (S (tick w))); [|reflexivity].
  destruct (peek w key) as [e|]; [|reflexivity].
  destruct (string2ll (data e)) as [n|]; [|reflexivity].
  destruct (n =? LLONG_MAX); reflexivity.
Qed.

(** The handler of [check] is never reached: [incr] and [expire] contain
    their own failures. *)
Lemma check_eq userId action maxRequests windowSeconds w :
  let key := CacheKeys.rateLimit userId action in
  RateLimiter.check userId action maxRequests windowSeconds w =
  match fst (CacheService.incr key w) with
  | Ok count =>
      let w2 := after_expire key count windowSeconds (snd (CacheService.incr key w)) in
      (Ok (Verdict (count <=? maxRequests) (Z.max 0 (maxRequests - count))
             (now w + windowSeconds * 1000) count), w2)
  | Thrown e =>
      let w1 := snd (CacheService.incr key w) in
      (Ok (Verdict true maxRequests (now w1 + windowSeconds * 1000) 0), w1)
  end.
Proof.
  cbv zeta. unfold RateLimiter.check, after_expire.
  unfold try_catch at 1. unfold bind at 1.
  pose proof (incr_now (CacheKeys.rateLimit userId action) w) as Hnow.
  destruct (CacheService.incr (CacheKeys.rateLimit userId action) w) as [[count|e] w1];
    cbn [fst snd] in *; [|reflexivity].
  unfold bind at 1.
  destruct (count =? 1).
  - unfold bind at 1.
    pose proof (expire_now (CacheKeys.rateLimit userId action) windowSeconds w1) as Hnow2.
    destruct (expire_never_throws (CacheKeys.rateLimit userId action) windowSeconds w1) as [b Hb].
    destruct (CacheService.expire _ _ w1) as [r w2]. cbn [fst snd] in *. subst r.
    unfold ret, bind, Date_now. now rewrite Hnow2, Hnow.
  - unfold ret, bind, Date_now. now rewrite Hnow.
Qed.

Lemma check_never_throws userId action maxRequests windowSeconds w :
  exists v, fst (RateLimiter.check userId action maxRequests windowSeconds w) = Ok v.
Proof.
  pose proof (check_eq userId action maxRequests windowSeconds w) as E.
  cbv zeta in E. rewrite E.
  destruct (fst (CacheService.incr _ w)); cbn; eauto.
Qed.

Lemma incr_unreachable key w :
  unreachable w -> CacheService.incr key w = (Ok 0, advance w).
Proof. intros Hdown. rewrite incr_eq. now rewrite Hdown. Qed.

(** For a limit that is not negative [check] fails open: when every
    interaction with the store fails, [incr] returns 0 and [check] returns
    [allowed = true], [remaining = maxRequests] and [current = 0] without
    raising. *)
Lemma check_fails_open userId action maxRequests windowSeconds w :
  unreachable w -> 0 <= maxRequests ->
  CacheService.incr (CacheKeys.rateLimit userId action) w = (Ok 0, advance w) /\
  RateLimiter.check userId action maxRequests windowSeconds w =
  (Ok (Verdict true maxRequests (now w + windowSeconds * 1000) 0), advance w).
Proof.
  intros Hdown Hmax. split; [now apply incr_unreachable|].
  pose proof (check_eq userId action maxRequests windowSeconds w) as E.
  cbv zeta in E. rewrite E, (incr_unreachable _ _ Hdown). cbn [fst snd].
  unfold after_expire. cbn [Z.eqb].
  replace (0 <=? maxRequests) with true by (symmetry; now apply Z.leb_le).
  now replace (Z.max 0 (maxRequests - 0)) with maxRequests by lia.
Qed.

Lemma check_now userId action maxRequests windowSeconds w :
  now (snd (RateLimiter.check userId action maxRequests windowSeconds w)) = now w.
Proof.
  pose proof (check_eq userId action maxRequests windowSeconds w) as E.
  cbv zeta in E. rewrite E.
  destruct (fst (CacheService.incr _ w)) as [count|]; cbn [snd]; [|apply incr_now].
  unfold after_expire. destruct (count =? 1); [rewrite expire_now|]; apply incr_now.
Qed.

Lemma ceil_div_window t windowSeconds :
  ceil_div (t + windowSeconds * 1000 - t) 1000 = windowSeconds.
Proof.
  unfold ceil_div.
  replace (- (t + windowSeconds * 1000 - t)) with ((- windowSeconds) * 1000) by lia.
  rewrite Z.div_mul by lia. lia.
Qed.

(** C8.  [middleware] ends in the world [check] ends in and answers by the
    verdict [check] gives there: nothing ([null]) when it is allowed, and
    otherwise a response of status 429 whose headers are [X-RateLimit-Limit]
    (the limit), [X-RateLimit-Remaining] (0), [X-RateLimit-Reset] (the
    verdict's [resetAt]) and [Retry-After] (the window, in seconds). *)
Theorem middleware_rejects_with_429 userId action maxRequests windowSeconds w :
  let checked := RateLimiter.check userId action maxRequests windowSeconds w in
  let out := RateLimiter.middleware userId action maxRequests windowSeconds w in
  exists v, fst checked = Ok v /\
  snd out = snd checked /\
  fst out =
    Ok (if allowed v then None
        else Some (Response 429
               [("X-RateLimit-Limit", Number_toString maxRequests);
                ("X-RateLimit-Remaining", "0");
                ("X-RateLimit-Reset", Number_toString (resetAt v));
                ("Retry-After", Number_toString windowSeconds)]
               "Too many requests. Please try again later."
               (Details maxRequests 0 (resetAt v) windowSeconds))).
Proof.
  cbv zeta.
  destruct (check_never_throws userId action maxRequests windowSeconds w) as [v Hv].
  exists v. split; [exact Hv|].
  assert (Hreset : resetAt v = now w + windowSeconds * 1000).
  { pose proof (check_eq userId action maxRequests windowSeconds w) as E.
    cbv zeta in E. rewrite E in Hv.
    destruct (fst (CacheService.incr _ w)); cbn [fst] in Hv;
      injection Hv as <-; cbn [resetAt]; [reflexivity|].
    now rewrite incr_now. }
  pose proof (check_now userId action maxRequests windowSeconds w) as Hnow.
  unfold RateLimiter.middleware, bind, Date_now, ret.
  destruct (RateLimiter.check userId action maxRequests windowSeconds w) as [r w1].
  cbn [fst snd] in *. subst r.
  destruct (allowed v); cbn [negb fst snd]; [split; reflexivity|].
  rewrite Hnow, Hreset, ceil_div_window. split; reflexivity.
Qed.

(** *** A window of requests *)

Lemma peek_lookup w key e :
  store w !! key = Some e -> alive (now w) e = true -> peek w key = Some e.
Proof. intros Hs Ha. unfold peek. now rewrite Hs, Ha. Qed.

Lemma check_counting userId action maxRequests windowSeconds c D w :
  let key := CacheKeys.rateLimit userId action in
  reachable w -> peek w key = Some (Entry (Number_toString c) D) ->
  1 <= c < LLONG_MAX ->
  RateLimiter.check userId action maxRequests windowSeconds w =
  (Ok (Verdict (c + 1 <=? maxRequests) (Z.max 0 (maxRequests - (c + 1)))
         (now w + windowSeconds * 1000) (c + 1)),
   with_store (insert key (Entry (Number_toString (c + 1)) D))
     (record (INCR key) (advance (advance w)))).
Proof.
  intros key Hup Hpeek Hc.
  pose proof (check_eq userId action maxRequests windowSeconds w) as E.
  cbv zeta in E. rewrite E. clear E. fold key.
  rewrite incr_eq, !Hup, Hpeek. cbv zeta. cbn [data deadline].
  rewrite string2ll_toString by (unfold LLONG_MIN, LLONG_MAX in *; lia).
  destruct (Z.eqb_spec c LLONG_MAX) as [->|_]; [lia|]. cbn [fst snd].
  unfold after_expire. destruct (Z.eqb_spec (c + 1) 1); [lia | reflexivity].
Qed.

Lemma check_first userId action maxRequests windowSeconds w :
  let key := CacheKeys.rateLimit userId action in
  reachable w -> peek w key = None -> 0 < windowSeconds ->
  RateLimiter.check userId action maxRequests windowSeconds w =
  (Ok (Verdict (1 <=? maxRequests) (Z.max 0 (maxRequests - 1))
         (now w + windowSeconds * 1000) 1),
   with_store (insert key (Entry "1" (Some (now w + windowSeconds * 1000))))
     (record (EXPIRE key windowSeconds)
        (advance (advance
           (with_store (insert key (Entry "1" None))
              (record (INCR key) (advance (advance w)))))))).
Proof.
  intros key Hup Hpeek Hwin.
  pose proof (check_eq userId action maxRequests windowSeconds w) as E.
  cbv zeta in E. rewrite E. clear E. fold key.
  rewrite incr_eq, !Hup, Hpeek. cbv zeta. cbn [fst snd].
  unfold after_expire. cbn [Z.eqb Pos.eqb].
  set (w1 := with_store _ _).
  assert (Hup1 : reachable w1) by exact Hup.
  assert (Hpeek1 : peek w1 key = Some (Entry "1" None)).
  { apply peek_lookup; [|reflexivity]. subst w1. cbn. apply lookup_insert_eq. }
  rewrite expire_eq, !Hup1, Hpeek1. cbv zeta.
  destruct (Z.leb_spec windowSeconds 0); [lia | reflexivity].
Qed.

Lemma burst_counting userId action maxRequests windowSeconds delays :
  let key := CacheKeys.rateLimit userId action in
  forall c d w,
  reachable w ->
  store w !! key = Some (Entry (Number_toString c) (Some d)) ->
  1 <= c -> c + Z.of_nat (length delays) <= LLONG_MAX ->
  Forall (fun dt => 0 <= dt) delays ->
  now w + total delays < d ->
  let out := burst userId action maxRequests windowSeconds delays w in
  map summary (fst out) = counts maxRequests c (length delays) /\
  reachable (snd out) /\
  store (snd out) !! key
    = Some (Entry (Number_toString (c + Z.of_nat (length delays))) (Some d)) /\
  expires key (snd out) = expires key w /\
  now (snd out) = now w + total delays.
Proof.
  intros key. subst key.
  induction delays as [|dt rest IH]; intros c d w Hup Hstore Hc Hmax Hpos Hlate.
  - cbn [burst fst snd map counts length total foldr].
    rewrite !Z.add_0_r. repeat split; assumption.
  - inversion Hpos as [|? ? Hdt Hrest]; subst.
    cbn [length total foldr] in *. fold (total rest) in *.
    assert (Hsum : 0 <= total rest).
    { clear -Hrest. induction Hrest; cbn; [lia|]. fold (total l). lia. }
    cbn [burst].
    assert (Hpeek : peek (elapse dt w) (CacheKeys.rateLimit userId action) = Some (Entry (Number_toString c) (Some d))).
    { apply peek_lookup; [exact Hstore|]. unfold alive. cbn. apply Z.ltb_lt. lia. }
    rewrite (check_counting userId action maxRequests windowSeconds c (Some d) (elapse dt w))
      by (exact Hup || exact Hpeek || lia).
    set (w1 := with_store _ _).
    specialize (IH (c + 1) d w1).
    destruct IH as (IHs & IHup & IHstore & IHexp & IHnow);
      [exact Hup | subst w1; cbn; apply lookup_insert_eq | lia | lia | exact Hrest
      | subst w1; cbn; lia |].
    cbv zeta in IHs, IHup, IHstore, IHexp, IHnow.
    destruct (burst userId action maxRequests windowSeconds rest w1) as [rs w2].
    cbn [fst snd map counts summary allowed remaining current] in *.
    rewrite IHs. split; [reflexivity|]. split; [exact IHup|]. split.
    { rewrite IHstore. do 3 f_equal. lia. }
    split.
    { rewrite IHexp. subst w1. unfold expires. reflexivity. }
    rewrite IHnow. subst w1. cbn. lia.
Qed.

Lemma burst_window userId action maxRequests windowSeconds d1 delays w :
  let key := CacheKeys.rateLimit userId action in
  reachable w -> peek (elapse d1 w) key = None -> 0 < windowSeconds ->
  Z.of_nat (length delays) < LLONG_MAX ->
  Forall (fun dt => 0 <= dt) delays ->
  total delays < windowSeconds * 1000 ->
  let out := burst userId action maxRequests windowSeconds (d1 :: delays) w in
  map summary (fst out) = counts maxRequests 0 (S (length delays)) /\
  store (snd out) !! key
    = Some (Entry (Number_toString (1 + Z.of_nat (length delays)))
              (Some (now w + d1 + windowSeconds * 1000))) /\
  expires key (snd out) = windowSeconds :: expires key w.
Proof.
  intros key Hup Habsent Hwin Hlen Hpos Hlate. subst key. cbv zeta. cbn [burst].
  rewrite (check_first userId action maxRequests windowSeconds (elapse d1 w))
    by (exact Hup || assumption).
  set (w1 := with_store _ _).
  destruct (burst_counting userId action maxRequests windowSeconds delays 1
              (now w + d1 + windowSeconds * 1000) w1)
    as (Hs & _ & Hstore & Hexp & _);
    [exact Hup | subst w1; cbn; apply lookup_insert_eq | lia | lia | exact Hpos
    | subst w1; cbn; lia |].
  cbv zeta in Hs, Hstore, Hexp.
  destruct (burst userId action maxRequests windowSeconds delays w1) as [rs w2].
  cbn [fst snd map counts summary allowed remaining current] in *.
  rewrite Hs. split; [reflexivity|]. split; [exact Hstore|].
  rewrite Hexp. subst w1. unfold expires. cbn.
  now rewrite decide_True.
Qed.

(** C2.  With a limit of 5 per 60 seconds, a reachable store and no counter
    when the first request arrives, six requests of one subject for one
    action, the last five coming within the 60 seconds that follow the
    first, get [allowed] true five times and then false, [remaining] 4, 3, 2,
    1, 0, 0, and the counts 1 to 6. *)
Theorem fixed_window_of_five userId action d1 d2 d3 d4 d5 d6 w :
  reachable w ->
  peek (elapse d1 w) (CacheKeys.rateLimit userId action) = None ->
  0 <= d2 -> 0 <= d3 -> 0 <= d4 -> 0 <= d5 -> 0 <= d6 ->
  d2 + d3 + d4 + d5 + d6 < 60 * 1000 ->
  map summary (fst (burst userId action 5 60 [d1; d2; d3; d4; d5; d6] w)) =
  [Some (true, 4, 1); Some (true, 3, 2); Some (true, 2, 3);
   Some (true, 1, 4); Some (true, 0, 5); Some (false, 0, 6)].
Proof.
  intros Hup Habsent H2 H3 H4 H5 H6 Hwindow.
  assert (Hpos : Forall (fun dt => 0 <= dt) [d2; d3; d4; d5; d6])
    by (repeat constructor; assumption).
  assert (Hlate : total [d2; d3; d4; d5; d6] < 60 * 1000) by (cbn; lia).
  assert (Hlen : Z.of_nat (length [d2; d3; d4; d5; d6]) < LLONG_MAX) by reflexivity.
  destruct (burst_window userId action 5 60 d1 [d2; d3; d4; d5; d6] w
              Hup Habsent eq_refl Hlen Hpos Hlate) as (Hs & _).
  exact Hs.
Qed.

Lemma peek_Some_lookup w key e : peek w key = Some e -> store w !! key = Some e.
Proof.
  unfold peek. destruct (store w !! key) as [e'|]; [|discriminate].
  destruct (alive (now w) e'); [congruence | discriminate].
Qed.

(** A call whose count is not 1 issues no [EXPIRE] and leaves the deadline
    of the counter alone. *)
Lemma check_keeps_deadline userId action maxRequests windowSeconds w v :
  let key := CacheKeys.rateLimit userId action in
  let out := RateLimiter.check userId action maxRequests windowSeconds w in
  fst out = Ok v -> current v <> 1 ->
  expires key (snd out) = expires key w /\
  deadline <$> store (snd out) !! key = deadline <$> store w !! key.
Proof.
  intros key out. subst key out.
  pose proof (check_eq userId action maxRequests windowSeconds w) as E.
  cbv zeta in E. rewrite E. clear E.
  rewrite incr_eq.
  destruct (online w (tick w)); cbv zeta;
    [|cbn [fst snd]; intros [= <-] _; cbn; split; reflexivity].
  destruct (online w (S (tick w)));
    [|cbn [fst snd]; intros [= <-] _; cbn; split; reflexivity].
  destruct (peek w _) as [e|] eqn:Hpeek;
    [|cbn [fst snd]; intros [= <-]; cbn [current]; congruence].
  destruct (string2ll (data e)) as [n|];
    [|cbn [fst snd]; intros [= <-] _; cbn; split; reflexivity].
  destruct (n =? LLONG_MAX);
    [cbn [fst snd]; intros [= <-] _; cbn; split; reflexivity|].
  cbn [fst snd]. intros [= <-]. cbn [current]. intros Hne.
  unfold after_expire. destruct (Z.eqb_spec (n + 1) 1); [congruence|].
  split; [reflexivity|].
  cbn [with_store store record advance]. rewrite lookup_insert_eq.
  now rewrite (peek_Some_lookup _ _ _ Hpeek).
Qed.

Lemma incr_expires key w :
  expires key (snd (CacheService.incr key w)) = expires key w.
Proof.
  rewrite incr_eq.
  destruct (online w (tick w)); [|reflexivity].
  cbv zeta. destruct (online w (S (tick w))); [|reflexivity].
  destruct (peek w key) as [e|]; [|reflexivity].
  destruct (string2ll (data e)) as [n|]; [|reflexivity].
  destruct (n =? LLONG_MAX); reflexivity.
Qed.

Lemma expire_expires key seconds w :
  expires key (snd (CacheService.expire key seconds w)) = expires key w \/
  expires key (snd (CacheService.expire key seconds w)) = seconds :: expires key w.
Proof.
  rewrite expire_eq.
  destruct (online w (tick w)); [|now left].
  right. cbv zeta.
  assert (Hlog : expires key (record (EXPIRE key seconds) (advance (advance w)))
                 = seconds :: expires key w).
  { unfold expires. cbn. now rewrite decide_True. }
  destruct (online w (S (tick w))); [|exact Hlog].
  destruct (peek w key) as [e|]; [|exact Hlog].
  destruct (seconds <=? 0); exact Hlog.
Qed.

Lemma check_expires_at_most_once userId action maxRequests windowSeconds w :
  let key := CacheKeys.rateLimit userId action in
  let after := snd (RateLimiter.check userId action maxRequests windowSeconds w) in
  expires key after = expires key w \/
  expires key after = windowSeconds :: expires key w.
Proof.
  cbv zeta.
  pose proof (check_eq userId action maxRequests windowSeconds w) as E.
  cbv zeta in E. rewrite E. clear E.
  destruct (incr_never_throws (CacheKeys.rateLimit userId action) w) as [count Hc].
  rewrite Hc. cbn [snd]. unfold after_expire.
  destruct (count =? 1).
  - rewrite <- (incr_expires (CacheKeys.rateLimit userId action) w).
    apply expire_expires.
  - left. apply incr_expires.
Qed.

(** The expiry while the store is reachable: the request that finds no
    counter creates it at 1 and issues the [EXPIRE] that sets its deadline one
    window ahead.  Over that request and any run of requests within the
    window, this is the only [EXPIRE] issued for the counter, and the deadline
    stays the one it set.  And in any world, a call of [check] whose count is
    not 1 issues no [EXPIRE] and leaves the deadline of the counter as it was,
    and no call issues more than one. *)
Lemma expiry_is_set_once userId action maxRequests windowSeconds d1 delays w :
  let key := CacheKeys.rateLimit userId action in
  reachable w -> peek (elapse d1 w) key = None -> 0 < windowSeconds ->
  Z.of_nat (length delays) < LLONG_MAX ->
  Forall (fun dt => 0 <= dt) delays ->
  total delays < windowSeconds * 1000 ->
  let first := RateLimiter.check userId action maxRequests windowSeconds (elapse d1 w) in
  let out := burst userId action maxRequests windowSeconds (d1 :: delays) w in
  (* the call that creates the counter sets its expiry *)
  (summary (fst first) = Some (1 <=? maxRequests, Z.max 0 (maxRequests - 1), 1) /\
   expires key (snd first) = windowSeconds :: expires key w /\
   deadline <$> store (snd first) !! key = Some (Some (now w + d1 + windowSeconds * 1000))) /\
  (* over the whole window there is that one [EXPIRE], and its deadline stands *)
  (expires key (snd out) = windowSeconds :: expires key w /\
   deadline <$> store (snd out) !! key = Some (Some (now w + d1 + windowSeconds * 1000))) /\
  (* in any world, a call whose count is not 1 issues none *)
  (forall w' v,
     fst (RateLimiter.check userId action maxRequests windowSeconds w') = Ok v ->
     current v <> 1 ->
     expires key (snd (RateLimiter.check userId action maxRequests windowSeconds w'))
       = expires key w' /\
     deadline <$> store (snd (RateLimiter.check userId action maxRequests windowSeconds w')) !! key
       = deadline <$> store w' !! key) /\
  (* and no call issues more than one *)
  (forall w',
     let after := snd (RateLimiter.check userId action maxRequests windowSeconds w') in
     expires key after = expires key w' \/
     expires key after = windowSeconds :: expires key w').
Proof.
  intros key Hup Habsent Hwin Hlen Hpos Hlate. subst key. cbv zeta.
  split; [|split; [|split]].
  - rewrite (check_first userId action maxRequests windowSeconds (elapse d1 w))
      by (exact Hup || assumption).
    cbn [fst snd]. split; [reflexivity|]. split.
    + unfold expires. cbn. now rewrite decide_True.
    + cbn [with_store store]. now rewrite lookup_insert_eq.
  - destruct (burst_window userId action maxRequests windowSeconds d1 delays w
                Hup Habsent Hwin Hlen Hpos Hlate) as (_ & Hstore & Hexp).
    split; [exact Hexp|]. now rewrite Hstore.
  - intros w' v. apply check_keeps_deadline.
  - intros w'. apply check_expires_at_most_once.
Qed.

(** ** Pattern invalidation *)

Lemma live_keys_spec w k : k ∈ live_keys w <-> is_Some (peek w k).
Proof.
  unfold live_keys, peek. rewrite list_elem_of_fmap. split.
  - intros [[k' e] [-> Hin]]. apply elem_of_map_to_list in Hin.
    apply map_lookup_filter_Some in Hin as [Hs Ha]. cbn in *.
    rewrite Hs, Ha. eauto.
  - destruct (store w !! k) as [e|] eqn:Hs; [|intros [? [=]]].
    destruct (alive (now w) e) eqn:Ha; [|intros [? [=]]].
    intros _. exists (k, e). split; [reflexivity|].
    apply elem_of_map_to_list, map_lookup_filter_Some. now split.
Qed.

Lemma live_keys_NoDup w : NoDup (live_keys w).
Proof. unfold live_keys. apply NoDup_fst_map_to_list. Qed.

Lemma matching_spec pattern w k :
  k ∈ matching pattern w <-> stringmatch pattern k = true /\ is_Some (peek w k).
Proof. unfold matching. rewrite list_elem_of_filter, live_keys_spec. tauto. Qed.

Lemma matching_NoDup pattern w : NoDup (matching pattern w).
Proof. apply NoDup_filter, live_keys_NoDup. Qed.

Lemma del_keys_now keys : forall w, now (snd (Redis.del_keys keys w)) = now w.
Proof.
  induction keys as [|k rest IH]; intros w; [reflexivity|].
  cbn [Redis.del_keys]. specialize (IH (with_store (delete k) w)).
  destruct (Redis.del_keys rest (with_store (delete k) w)). exact IH.
Qed.

Lemma del_keys_lookup keys : forall w k,
  store (snd (Redis.del_keys keys w)) !! k =
  if decide (k ∈ keys) then None else store w !! k.
Proof.
  induction keys as [|k0 rest IH]; intros w k.
  - cbn. rewrite decide_False; [reflexivity | apply not_elem_of_nil].
  - cbn [Redis.del_keys]. specialize (IH (with_store (delete k0) w) k).
    destruct (Redis.del_keys rest (with_store (delete k0) w)) as [n w']. cbn [snd] in *.
    rewrite IH. cbn [with_store store].
    destruct (decide (k ∈ rest)) as [Hin|Hout].
    + rewrite decide_True; [reflexivity | now right].
    + destruct (decide (k = k0)) as [->|Hne].
      * rewrite decide_True by now left. apply lookup_delete_eq.
      * rewrite decide_False by (rewrite elem_of_cons; tauto).
        now apply lookup_delete_ne.
Qed.

Lemma del_keys_peek keys w k :
  peek (snd (Redis.del_keys keys w)) k =
  if decide (k ∈ keys) then None else peek w k.
Proof.
  unfold peek. rewrite del_keys_lookup, del_keys_now.
  now destruct (decide (k ∈ keys)).
Qed.

Lemma delPattern_eq pattern w :
  CacheService.delPattern pattern w =
  if online w (tick w) then
    let w1 := record (KEYS pattern) (advance (advance w)) in
    if online w (S (tick w)) then
      let keys := matching pattern w in
      if (length keys =? 0)%nat then (Ok 0, w1)
      else
        let w2 := record (DEL keys) (advance w1) in
        if online w (S (S (tick w)))
        then (Ok (Z.of_nat (length keys)), snd (Redis.del_keys keys w2))
        else (Ok 0, w2)
    else (Ok 0, w1)
  else (Ok 0, advance w).
Proof.
  unfold CacheService.delPattern, Redis.keys, Redis.del. unfold_monad.
  destruct (online w (tick w)); [|reflexivity].
  unfold advance at 1 2. cbn [online tick].
  destruct (online w (S (tick w))); [|reflexivity].
  change (live_keys (record (KEYS pattern) (advance (advance w)))) with (live_keys w).
  fold (matching pattern w). cbv zeta.
  destruct (length (matching pattern w) =? 0)%nat; [reflexivity|].
  cbn [record advance online tick].
  destruct (online w (S (S (tick w)))); [|reflexivity].
  destruct (Redis.del_keys _ _); reflexivity.
Qed.

Lemma delPattern_reachable pattern w :
  reachable w ->
  fst (CacheService.delPattern pattern w) = Ok (Z.of_nat (length (matching pattern w))) /\
  forall k, peek (snd (CacheService.delPattern pattern w)) k =
            if stringmatch pattern k then None else peek w k.
Proof.
  intros Hup. rewrite delPattern_eq, !Hup. cbv zeta.
  assert (Hsel : forall k, (if decide (k ∈ matching pattern w) then None else peek w k)
                           = if stringmatch pattern k then None else peek w k).
  { intros k. destruct (decide (k ∈ matching pattern w)) as [Hin|Hout].
    - apply matching_spec in Hin as [-> _]. reflexivity.
    - destruct (stringmatch pattern k) eqn:Hm; [|reflexivity].
      destruct (peek w k) eqn:Hp; [|reflexivity].
      contradiction Hout. apply matching_spec. rewrite Hp. eauto. }
  destruct (matching pattern w) as [|k0 keys] eqn:Hkeys; cbn [length Nat.eqb fst snd].
  - split; [reflexivity|]. intros k. rewrite <- Hsel.
    rewrite decide_False; [reflexivity | apply not_elem_of_nil].
  - split; [reflexivity|]. intros k. rewrite del_keys_peek. apply Hsel.
Qed.

Lemma delPattern_failure pattern w :
  online w (tick w) = false \/ online w (S (tick w)) = false
    \/ online w (S (S (tick w))) = false ->
  fst (CacheService.delPattern pattern w) = Ok 0 /\
  store (snd (CacheService.delPattern pattern w)) = store w.
Proof.
  intros Hoff. rewrite delPattern_eq.
  destruct (online w (tick w)); [|now split].
  cbv zeta. destruct (online w (S (tick w))); [|now split].
  destruct (length (matching pattern w) =? 0)%nat; [now split|].
  destruct Hoff as [Hoff | [Hoff | ->]]; try discriminate. now split.
Qed.

Lemma delPattern_never_throws pattern w :
  exists n, fst (CacheService.delPattern pattern w) = Ok n.
Proof.
  rewrite delPattern_eq.
  destruct (online w (tick w)); [|cbn; eauto].
  cbv zeta. destruct (online w (S (tick w))); [|cbn; eauto].
  destruct (length (matching pattern w) =? 0)%nat; [cbn; eauto|].
  destruct (online w (S (S (tick w)))); cbn; eauto.
Qed.

Example stringmatch_ns :
  stringmatch "ns:a:*" "ns:a:1" = true /\ stringmatch "ns:a:*" "ns:a:2" = true /\
  stringmatch "ns:a:*" "ns:b:1" = false.
Proof. vm_compute. repeat split. Qed.

(** C5.  [delPattern] does not raise.  With the store reachable it returns
    the number of live keys the pattern matches, and afterwards exactly those
    keys are gone: a key the pattern matches is absent, any other key is as
    before; it returns 0 when no key matches.  When one of its interactions
    with the store fails it returns 0 and the keyspace is as it was.  In a
    store where [ns:a:1], [ns:a:2] and [ns:b:1] are present and no other key
    matches, [delPattern("ns:a:*")] returns 2, removes the first two and
    leaves [ns:b:1]. *)
Theorem delPattern_deletes_matching pattern w :
  let out := CacheService.delPattern pattern w in
  (exists n, fst out = Ok n) /\
  (reachable w ->
   fst out = Ok (Z.of_nat (length (matching pattern w))) /\
   forall k, peek (snd out) k = if stringmatch pattern k then None else peek w k) /\
  (reachable w -> matching pattern w = [] -> fst out = Ok 0) /\
  (online w (tick w) = false \/ online w (S (tick w)) = false
     \/ online w (S (S (tick w))) = false ->
   fst out = Ok 0 /\ store (snd out) = store w) /\
  (forall w',
   reachable w' ->
   is_Some (peek w' "ns:a:1") -> is_Some (peek w' "ns:a:2") ->
   is_Some (peek w' "ns:b:1") ->
   (forall k, is_Some (peek w' k) -> stringmatch "ns:a:*" k = true ->
              k = "ns:a:1" \/ k = "ns:a:2") ->
   let out' := CacheService.delPattern "ns:a:*" w' in
   fst out' = Ok 2 /\
   peek (snd out') "ns:a:1" = None /\ peek (snd out') "ns:a:2" = None /\
   peek (snd out') "ns:b:1" = peek w' "ns:b:1").
Proof.
  cbv zeta. split; [apply delPattern_never_throws|].
  split; [apply delPattern_reachable|].
  split.
  { intros Hup Hnone. destruct (delPattern_reachable pattern w Hup) as [-> _].
    now rewrite Hnone. }
  split; [apply delPattern_failure|].
  clear w. intros w Hup H1 H2 _ Honly.
  destruct (delPattern_reachable "ns:a:*" w Hup) as [Hcount Hpeek].
  destruct stringmatch_ns as (M1 & M2 & M3).
  split.
  - rewrite Hcount. f_equal.
    assert (Hperm : matching "ns:a:*" w ≡ₚ ["ns:a:1"; "ns:a:2"]).
    { apply NoDup_Permutation.
      - apply matching_NoDup.
      - apply NoDup_cons. split; [|apply NoDup_singleton].
        intros Hin. now apply list_elem_of_singleton in Hin.
      - intros k. rewrite matching_spec. split.
        + intros [Hm Hlive]. destruct (Honly k Hlive Hm) as [-> | ->]; set_solver.
        + intros Hin. apply elem_of_cons in Hin as [-> | Hin];
            [now split|]. apply list_elem_of_singleton in Hin as ->. now split. }
    now rewrite Hperm.
  - rewrite !Hpeek, M1, M2, M3. repeat split.
Qed.

(** * The properties on concrete worlds *)

Lemma boot_reachable t : reachable (boot t (always true)).
Proof. intros i. reflexivity. Qed.

Lemma boot_unreachable t : unreachable (boot t (always false)).
Proof. intros i. reflexivity. Qed.

(** C1 as stated fails.  The key is absent, the store is reachable, the
    producer resolves to [null]: the first call invokes it once and returns
    its value, and the second call, one millisecond later and well within the
    300 seconds, invokes the producer again. *)
Lemma read_through_null_counterexample :
  let w := boot 1000 (always true) in
  let first := CacheService.getOrSet "ticket:42" (Resolves JNull) 300 w in
  let second :=
    CacheService.getOrSet "ticket:42" (Resolves JNull) 300 (elapse 1 (snd first)) in
  peek w "ticket:42" = None /\
  fst first = Ok JNull /\ fetches (snd first) = 1%nat /\
  fst second = Ok JNull /\ fetches (snd second) = 2%nat.
Proof. vm_compute. repeat split. Qed.

(** C1 on a number: cached at the first call, served 299.999 seconds later
    although a different producer is offered. *)
Lemma read_through_witness :
  let w := boot 1000 (always true) in
  let first := CacheService.getOrSet "ticket:42" (Resolves (JNumber 7)) 300 w in
  let second :=
    CacheService.getOrSet "ticket:42" (Resolves (JNumber 8)) 60 (elapse 299999 (snd first)) in
  (peek w "ticket:42" = None /\ reachable w /\
   JSON_stringify (JNumber 7) = Some "7" /\ "7" <> "" /\
   JSON_parse "7" = Some (JNumber 7) /\ JNumber 7 <> null /\
   0 <= 299999 < 300 * 1000) /\
  (fst first = Ok (JNumber 7) /\ fetches (snd first) = S (fetches w)) /\
  fst second = Ok (JNumber 7) /\ fetches (snd second) = fetches (snd first).
Proof.
  pose proof (boot_reachable 1000) as Hup.
  assert (Hne : "7" <> "") by discriminate.
  assert (Hnn : JNumber 7 <> null) by discriminate.
  assert (Hdt : 0 <= 299999 < 300 * 1000) by lia.
  split.
  - repeat split; try assumption; try reflexivity; lia.
  - destruct (read_through "ticket:42" (JNumber 7) 300 (boot 1000 (always true)) eq_refl)
      as [Hfirst Hsecond].
    split; [exact Hfirst|].
    exact (Hsecond (JNumber 7) "7" (Resolves (JNumber 8)) 60 299999
             Hup eq_refl Hne eq_refl Hnn Hdt).
Defined.

(** C2 on a fresh store, the sixth request 59.999 seconds after the first. *)
Lemma fixed_window_of_five_witness :
  let w := boot 0 (always true) in
  (reachable w /\
   peek (elapse 0 w) (CacheKeys.rateLimit "agent-1" "createTicket") = None /\
   0 <= 1000 /\ 0 <= 2000 /\ 0 <= 3000 /\ 0 <= 4000 /\ 0 <= 49999 /\
   1000 + 2000 + 3000 + 4000 + 49999 < 60 * 1000) /\
  map summary
    (fst (burst "agent-1" "createTicket" 5 60 [0; 1000; 2000; 3000; 4000; 49999] w)) =
  [Some (true, 4, 1); Some (true, 3, 2); Some (true, 2, 3);
   Some (true, 1, 4); Some (true, 0, 5); Some (false, 0, 6)].
Proof.
  pose proof (boot_reachable 0) as Hup.
  split.
  - repeat split; try assumption; try reflexivity; lia.
  - apply (fixed_window_of_five "agent-1" "createTicket" 0 1000 2000 3000 4000 49999
             (boot 0 (always true)) Hup eq_refl);
      lia.
Defined.


(** C4 on a fresh store: a miss, one invocation, [null], nothing written. *)
Lemma getOrSet_producer_rejects_witness :
  let w := boot 0 (always true) in
  let out := CacheService.getOrSet "ticket:42" (@Rejects scalar) 300 w in
  fst (CacheService.get "ticket:42" w) = Ok null /\
  fst out = Ok null /\ fetches (snd out) = S (fetches w) /\ store (snd out) = store w.
Proof.
  pose proof (getOrSet_producer_rejects "ticket:42" 300 (boot 0 (always true)))
    as (Hstore & _ & Hmiss & _).
  split; [reflexivity|].
  destruct (Hmiss eq_refl) as [Hnull Hcalls].
  split; [exact Hnull|]. split; [exact Hcalls | exact Hstore].
Defined.

(** C6 on a key that holds text that is not JSON. *)
Lemma get_failure_is_a_miss_witness :
  (peek garbled_world "ticket:42" = Some (Entry "{oops" None) /\
   JSON_parse "{oops" = @None scalar) /\
  fst (CacheService.get "ticket:42" garbled_world) = Ok null.
Proof.
  split; [split; reflexivity|].
  pose proof (get_failure_is_a_miss "ticket:42" garbled_world)
    as (_ & _ & _ & _ & Hbad).
  exact (Hbad (Entry "{oops" None) eq_refl eq_refl).
Defined.

(** C10 with a store that is there for the two interactions of the read and
    gone for the write. *)
Lemma getOrSet_ignores_write_failure_witness :
  let w := boot 0 (fun i => (i <? 2)%nat) in
  let w1 := record Fetch (snd (CacheService.get "ticket:42" w)) in
  let out := CacheService.getOrSet "ticket:42" (Resolves (JNumber 7)) 300 w in
  (fst (CacheService.get "ticket:42" w) = Ok null /\
   fst (CacheService.set "ticket:42" (JNumber 7) 300 w1) = Ok false) /\
  fst out = Ok (JNumber 7) /\ store (snd out) = store w.
Proof.
  pose proof (getOrSet_ignores_write_failure "ticket:42" (JNumber 7) 300
                (boot 0 (fun i => (i <? 2)%nat)) eq_refl) as (Hv & _ & Hstore).
  split; [split; reflexivity|].
  split; [exact Hv | exact (Hstore eq_refl)].
Defined.

(** C9 on a fresh store, with two further requests. *)
Lemma null_is_never_served_witness :
  let w := boot 0 (always true) in
  let requests := [Request 10 (Resolves JNull) 300; Request 20 (Resolves JNull) 60] in
  let first := CacheService.getOrSet "ticket:42" (Resolves JNull) 300 w in
  let later := session "ticket:42" requests (snd first) in
  (JSON_stringify JNull = Some "null" /\ JSON_parse "null" = Some JNull /\
   reachable w /\ store w !! "ticket:42" = None /\ 0 < 300 /\
   Forall (fun q => producer q = Resolves JNull) requests) /\
  fst first = Ok JNull /\
  peek (snd first) "ticket:42" = Some (Entry "null" (Some (now w + 300 * 1000))) /\
  fst (CacheService.get "ticket:42" (snd first)) = Ok JNull /\
  fetches (snd (CacheService.getOrSet "ticket:42" (Resolves (JNumber 1)) 300
                  (elapse 5 (snd first)))) = S (fetches (snd first)) /\
  Forall (fun r => r = Ok JNull) (fst later) /\
  fetches (snd later) = (fetches (snd first) + length requests)%nat.
Proof.
  pose proof (boot_reachable 0) as Hup.
  assert (Httl : 0 < 300) by lia.
  assert (Hall : Forall (fun q => producer q = Resolves JNull)
                   [Request 10 (Resolves JNull) 300; Request 20 (Resolves JNull) 60])
    by (repeat constructor).
  split; [repeat split; assumption || reflexivity|].
  exact (null_is_never_served "ticket:42" _ 300 (Resolves (JNumber 1)) 300 5
           (boot 0 (always true)) eq_refl eq_refl Hup eq_refl Httl Hall).
Defined.

(** C7.  A defect of [check]: it drops the boolean [expire] returns, and
    [expire] contains every failure.  Here the store is reachable except for
    the one [EXPIRE] command of the request that creates the counter.  That
    request takes the counter from absent to 1 and leaves it without a
    deadline; no later request has the count 1, so none issues an [EXPIRE],
    and the counter counts on: the request made ten minutes later, long after
    the window of 60 seconds, is the seventh and is rejected.  With the store
    reachable throughout, the same first request sets the deadline. *)
Theorem expiry_is_lost_with_the_expire :
  let key := CacheKeys.rateLimit "agent-1" "createTicket" in
  let w := boot 0 (except 3) in
  let first := RateLimiter.check "agent-1" "createTicket" 5 60 w in
  let later := burst "agent-1" "createTicket" 5 60
                 [1000; 1000; 1000; 1000; 1000; 600000] (snd first) in
  peek w key = None /\
  summary (fst first) = Some (true, 4, 1) /\
  store (snd first) !! key = Some (Entry "1" None) /\
  map summary (fst later) =
    [Some (true, 3, 2); Some (true, 2, 3); Some (true, 1, 4); Some (true, 0, 5);
     Some (false, 0, 6); Some (false, 0, 7)] /\
  store (snd later) !! key = Some (Entry "7" None) /\
  expires key (snd later) = [60] /\
  store (snd (RateLimiter.check "agent-1" "createTicket" 5 60 (boot 0 (always true)))) !! key
    = Some (Entry "1" (Some 60000)).
Proof. vm_compute. repeat split. Qed.

(** C5 on the keyspace of the scenario. *)
Lemma delPattern_deletes_matching_witness :
  let out := CacheService.delPattern "ns:a:*" ns_world in
  (reachable ns_world /\
   is_Some (peek ns_world "ns:a:1") /\ is_Some (peek ns_world "ns:a:2") /\
   is_Some (peek ns_world "ns:b:1") /\
   (forall k, is_Some (peek ns_world k) -> stringmatch "ns:a:*" k = true ->
              k = "ns:a:1" \/ k = "ns:a:2")) /\
  fst out = Ok 2 /\
  peek (snd out) "ns:a:1" = None /\ peek (snd out) "ns:a:2" = None /\
  peek (snd out) "ns:b:1" = peek ns_world "ns:b:1".
Proof.
  assert (Hup : reachable ns_world) by (intros i; reflexivity).
  assert (H1 : is_Some (peek ns_world "ns:a:1")) by (eexists; reflexivity).
  assert (H2 : is_Some (peek ns_world "ns:a:2")) by (eexists; reflexivity).
  assert (H3 : is_Some (peek ns_world "ns:b:1")) by (eexists; reflexivity).
  assert (Honly : forall k, is_Some (peek ns_world k) -> stringmatch "ns:a:*" k = true ->
                            k = "ns:a:1" \/ k = "ns:a:2").
  { intros k [e He] Hm. apply peek_Some_lookup in He.
    apply elem_of_list_to_map_2 in He.
    repeat (apply elem_of_cons in He as [[= -> _] | He]; [auto|]).
    - discriminate Hm.
    - now apply elem_of_nil in He. }
  split; [repeat split; assumption|].
  pose proof (delPattern_deletes_matching "ns:a:*" ns_world) as (_ & _ & _ & _ & Hscenario).
  exact (Hscenario ns_world Hup H1 H2 H3 Honly).
Defined.

(** * Further properties of [app/lib/cache.ts] *)

(** ** The remaining methods, one call at a time *)

Lemma del_eq key w :
  CacheService.del key w =
  if online w (tick w) then
    let w1 := record (DEL [key]) (advance (advance w)) in
    if online w (S (tick w)) then (Ok true, with_store (delete key) w1)
    else (Ok false, w1)
  else (Ok false, advance w).
Proof.
  unfold CacheService.del, Redis.del. unfold_monad.
  destruct (online w (tick w)); [|reflexivity].
  unfold advance at 1 2. cbn [online tick].
  destruct (online w (S (tick w))); reflexivity.
Qed.

Lemma exists_eq key w :
  CacheService.exists_ key w =
  if online w (tick w) then
    (if online w (S (tick w))
     then Ok (match peek w key with Some _ => true | None => false end)
     else Ok false,
     record (EXISTS key) (advance (advance w)))
  else (Ok false, advance w).
Proof.
  unfold CacheService.exists_, Redis.exists_. unfold_monad.
  destruct (online w (tick w)); [|reflexivity].
  unfold advance at 1 2. cbn [online tick].
  destruct (online w (S (tick w))); [|reflexivity].
  change (peek (record (EXISTS key) (advance (advance w))) key) with (peek w key).
  destruct (peek w key); reflexivity.
Qed.

Section Primitives.
Context {value : Type} `{JS value}.

Lemma setNX_eq key (v : value) ttl w :
  CacheService.setNX key v ttl w =
  if online w (tick w) then
    match JSON_stringify v with
    | None => (Ok false, advance w)
    | Some d =>
        let w1 := record (SETNX key ttl d) (advance (advance w)) in
        if online w (S (tick w)) then
          if ttl <=? 0 then (Ok false, w1)
          else
            match peek w key with
            | Some _ => (Ok false, w1)
            | None =>
                (Ok true,
                 with_store (insert key (Entry d (Some (now w + ttl * 1000)))) w1)
            end
        else (Ok false, w1)
    end
  else (Ok false, advance w).
Proof.
  unfold CacheService.setNX, Redis.setNX. unfold_monad.
  destruct (online w (tick w)); [|reflexivity].
  destruct (JSON_stringify v) as [d|]; [|reflexivity].
  unfold advance at 1 2. cbn [online tick].
  destruct (online w (S (tick w))); [|reflexivity].
  destruct (ttl <=? 0); [reflexivity|].
  change (peek (record (SETNX key ttl d) (advance (advance w))) key) with (peek w key).
  cbv zeta. destruct (peek w key); reflexivity.
Qed.

(** Looking a key up after an insertion, at a later time. *)
Lemma peek_elapse_insert key k e dt w :
  peek (elapse dt (with_store (insert key e) w)) k =
  if decide (key = k)
  then (if alive (now w + dt) e then Some e else None)
  else peek (elapse dt w) k.
Proof.
  unfold peek. cbn [elapse with_store store now].
  rewrite lookup_insert. now destruct (decide (key = k)).
Qed.

Lemma alive_deadline t d text :
  alive t (Entry text (Some d)) = (t <? d).
Proof. reflexivity. Qed.

(** Reading an entry back, [dt] milliseconds after a world that holds it. *)
Lemma get_entry key (v' : value) text d dt w :
  reachable w ->
  store w !! key = Some (Entry text (Some d)) ->
  text <> "" -> JSON_parse text = Some v' ->
  fst (CacheService.get key (elapse dt w)) = Ok (if now w + dt <? d then v' else null).
Proof.
  intros Hup Hstore Hne Hparse.
  rewrite get_reachable by exact Hup. cbn [fst]. f_equal.
  unfold peek. cbn [elapse store now]. rewrite Hstore, alive_deadline.
  destruct (now w + dt <? d); [|reflexivity].
  cbn [decode data]. destruct text; [congruence|]. now rewrite Hparse.
Qed.

Lemma ltb_shift t a b : (t + a <? t + b) = (a <? b).
Proof. destruct (Z.ltb_spec (t + a) (t + b)), (Z.ltb_spec a b); (reflexivity || lia). Qed.

(** X1.  Round trip of [set] and [get] over a reachable store: [set] with a
    positive lifetime returns [true], and [get] of the key returns the value
    the stored text parses to for as long as less than [ttl] seconds have
    passed, and [null] from then on. *)
Theorem set_then_get key (v v' : value) text ttl dt w :
  reachable w ->
  JSON_stringify v = Some text -> text <> "" -> JSON_parse text = Some v' ->
  0 < ttl ->
  let stored := CacheService.set key v ttl w in
  fst stored = Ok true /\
  fst (CacheService.get key (elapse dt (snd stored)))
    = Ok (if dt <? ttl * 1000 then v' else null).
Proof.
  intros Hup Htext Hne Hparse Httl. cbv zeta.
  rewrite (set_reachable key v ttl text w Hup Htext Httl). cbn [fst snd].
  split; [reflexivity|].
  set (w1 := with_store _ _).
  rewrite <- (ltb_shift (now w1) dt (ttl * 1000)).
  apply (get_entry key v' text (now w1 + ttl * 1000) dt w1);
    [exact Hup | | exact Hne | exact Hparse].
  subst w1. cbn [with_store store]. apply lookup_insert_eq.
Qed.

Lemma getOrSet_miss_outcome key (f : fetcher value) ttl w :
  fst (CacheService.get key w) = Ok null ->
  fst (CacheService.getOrSet key f ttl w) = outcome f /\
  fetches (snd (CacheService.getOrSet key f ttl w)) = S (fetches w).
Proof.
  intros Hmiss. rewrite (getOrSet_miss _ _ _ _ Hmiss). cbv zeta.
  destruct f as [v|]; cbn [fst snd outcome]; (split; [reflexivity|]);
    [rewrite set_fetches|];
    change (fetches (record Fetch ?w)) with (S (fetches w));
    now rewrite get_fetches.
Qed.

(** X2.  [getOrSet] caches for [ttl] seconds and no longer: once [ttl]
    seconds have passed since it filled the key, the key is gone and the next
    [getOrSet] invokes its producer (once) and returns what that producer
    gives. *)
Theorem getOrSet_recomputes_after_ttl key (v : value) text ttl f2 ttl2 dt w :
  reachable w -> peek w key = None ->
  JSON_stringify v = Some text -> 0 < ttl -> ttl * 1000 <= dt ->
  let first := CacheService.getOrSet key (Resolves v) ttl w in
  let second := CacheService.getOrSet key f2 ttl2 (elapse dt (snd first)) in
  peek (elapse dt (snd first)) key = None /\
  fst second = outcome f2 /\
  fetches (snd second) = S (fetches (snd first)).
Proof.
  intros Hup Habsent Htext Httl Hdt. cbv zeta.
  rewrite (getOrSet_fills key v ttl text w) by assumption. cbn [fst snd].
  set (w1 := elapse dt _).
  assert (Hgone : peek w1 key = None).
  { subst w1. rewrite peek_elapse_insert, decide_True by reflexivity.
    cbn [record advance now]. rewrite alive_deadline.
    destruct (Z.ltb_spec (now w + dt) (now w + ttl * 1000)); [lia | reflexivity]. }
  split; [exact Hgone|].
  assert (Hmiss : fst (CacheService.get key w1) = Ok null).
  { rewrite get_reachable by exact Hup. now rewrite Hgone. }
  destruct (getOrSet_miss_outcome key f2 ttl2 w1 Hmiss) as [Hres Hcalls].
  split; [exact Hres | exact Hcalls].
Qed.

Lemma get_miss key w :
  peek w key = None -> fst (CacheService.get (value := value) key w) = Ok null.
Proof.
  intros Hnone. rewrite get_eq, Hnone.
  destruct (online w (tick w)), (online w (S (tick w))); reflexivity.
Qed.

Lemma peek_absent key w : store w !! key = None -> peek w key = None.
Proof. intros Hs. unfold peek. now rewrite Hs. Qed.

Lemma set_refused key (v : value) ttl w :
  ttl <= 0 ->
  fst (CacheService.set key v ttl w) = Ok false /\
  store (snd (CacheService.set key v ttl w)) = store w.
Proof.
  intros Httl. rewrite set_eq.
  destruct (online w (tick w)); [|now split].
  destruct (JSON_stringify v); [|now split].
  cbv zeta. destruct (online w (S (tick w))); [|now split].
  destruct (Z.leb_spec ttl 0); [now split | lia].
Qed.

Lemma getOrSet_refused_store key (f : fetcher value) ttl w :
  ttl <= 0 -> store (snd (CacheService.getOrSet key f ttl w)) = store w.
Proof.
  intros Httl. rewrite getOrSet_eq.
  destruct (get_never_throws key w) as [cached ->].
  pose proof (get_store key w) as Hstore.
  destruct (decide (cached <> null)); [exact Hstore|].
  cbv zeta. destruct f as [v|]; cbn [snd]; [|exact Hstore].
  destruct (set_refused key v ttl (record Fetch (snd (CacheService.get key w))) Httl)
    as [_ ->].
  exact Hstore.
Qed.

(** X3.  A lifetime that is not positive is refused by the store, and [set]
    hides the refusal: whatever the store does, a run of [getOrSet] calls on a
    fresh key with such lifetimes invokes the producer at every call, returns
    each time what the producer gives, and leaves the keyspace untouched. *)
Theorem nonpositive_ttl_never_caches key (requests : list (request value)) : forall w,
  store w !! key = None ->
  Forall (fun q => ttl q <= 0) requests ->
  let out := session key requests w in
  fst out = map (fun q => outcome (producer q)) requests /\
  fetches (snd out) = (fetches w + length requests)%nat /\
  store (snd out) = store w.
Proof.
  induction requests as [|q rest IH]; intros w Hfresh Hall; cbv zeta.
  - cbn. repeat split. lia.
  - inversion Hall as [|? ? Hq Hrest]; subst. cbn [session].
    assert (Hmiss : fst (CacheService.get key (elapse (delay q) w)) = Ok null)
      by (apply get_miss, peek_absent; exact Hfresh).
    destruct (getOrSet_miss_outcome key (producer q) (ttl q) _ Hmiss) as [Hres Hcalls].
    pose proof (getOrSet_refused_store key (producer q) (ttl q) (elapse (delay q) w) Hq)
      as Hstore.
    destruct (CacheService.getOrSet key (producer q) (ttl q) (elapse (delay q) w))
      as [r w1]. cbn [fst snd] in *.
    assert (Hfresh1 : store w1 !! key = None) by (rewrite Hstore; exact Hfresh).
    destruct (IH w1 Hfresh1 Hrest) as (IHres & IHcalls & IHstore).
    destruct (session key rest w1) as [rs w2]. cbn [fst snd map length] in *.
    subst r. rewrite IHres, IHcalls, Hcalls, IHstore, Hstore.
    repeat split.
    change (fetches (elapse (delay q) w)) with (fetches w). lia.
Qed.

(** X4.  A second [set] on a key replaces the value and the lifetime of the
    first: after it, [get] returns the second value for [ttl2] seconds and
    [null] afterwards, however long the first lifetime was. *)
Theorem later_set_wins key (v1 v2 v2' : value) text1 text2 ttl1 ttl2 gap dt w :
  reachable w ->
  JSON_stringify v1 = Some text1 -> 0 < ttl1 ->
  JSON_stringify v2 = Some text2 -> text2 <> "" -> JSON_parse text2 = Some v2' ->
  0 < ttl2 ->
  let once := snd (CacheService.set key v1 ttl1 w) in
  let twice := snd (CacheService.set key v2 ttl2 (elapse gap once)) in
  fst (CacheService.get key (elapse dt twice))
    = Ok (if dt <? ttl2 * 1000 then v2' else null).
Proof.
  intros Hup Ht1 Httl1 Ht2 Hne Hparse Httl2. cbv zeta.
  rewrite (set_reachable key v1 ttl1 text1 w Hup Ht1 Httl1). cbn [snd].
  set (w1 := elapse gap _).
  assert (Hup1 : reachable w1) by exact Hup.
  rewrite (set_reachable key v2 ttl2 text2 w1 Hup1 Ht2 Httl2). cbn [snd].
  set (w2 := with_store _ _).
  rewrite <- (ltb_shift (now w2) dt (ttl2 * 1000)).
  apply (get_entry key v2' text2 (now w2 + ttl2 * 1000) dt w2);
    [exact Hup | | exact Hne | exact Hparse].
  subst w2. cbn [with_store store]. apply lookup_insert_eq.
Qed.

Lemma peek_delete key k w :
  peek (with_store (delete key) w) k = if decide (key = k) then None else peek w k.
Proof.
  unfold peek. cbn [with_store store now]. rewrite lookup_delete.
  now destruct (decide (key = k)).
Qed.

(** X5.  [del] never raises.  Over a reachable store it returns [true]
    whether or not the key was there; afterwards the key is gone ([get]
    returns [null]), every other key is as before, and a second [del] returns
    [true] again and changes nothing.  When the store cannot be reached it
    returns [false] and the keyspace is as it was. *)
Theorem del_is_idempotent key w :
  let once := CacheService.del key w in
  let twice := CacheService.del key (snd once) in
  (exists b, fst once = Ok b) /\
  (reachable w ->
   fst once = Ok true /\ fst twice = Ok true /\
   peek (snd once) key = None /\
   fst (CacheService.get (value := value) key (snd once)) = Ok null /\
   (forall k, k <> key -> peek (snd once) k = peek w k) /\
   store (snd twice) = store (snd once)) /\
  (online w (tick w) = false \/ online w (S (tick w)) = false ->
   fst once = Ok false /\ store (snd once) = store w).
Proof.
  cbv zeta. rewrite (del_eq key w).
  split; [|split].
  - destruct (online w (tick w)); [|cbn; eauto].
    cbv zeta. destruct (online w (S (tick w))); cbn; eauto.
  - intros Hup. rewrite !Hup. cbv zeta. cbn [fst snd].
    set (w1 := with_store _ _).
    assert (Hup1 : reachable w1) by exact Hup.
    assert (Hgone : peek w1 key = None)
      by (subst w1; rewrite peek_delete; now rewrite decide_True).
    rewrite del_eq, !Hup1. cbv zeta. cbn [fst snd].
    split; [reflexivity|]. split; [reflexivity|]. split; [exact Hgone|].
    split; [now apply get_miss|]. split.
    + intros k Hk. subst w1. rewrite peek_delete.
      rewrite decide_False by congruence. reflexivity.
    + subst w1. cbn [with_store store record advance].
      apply delete_id, lookup_delete_eq.
  - intros Hoff.
    destruct (online w (tick w)); [|now split].
    cbv zeta. destruct Hoff as [Hoff | ->]; [discriminate | now split].
Qed.

(** X6.  [exists] follows the lifetime of the entry, not its content: after
    a [set] it is [true] exactly while less than [ttl] seconds have passed.
    For an entry whose text parses to [null], [exists] says [true] while
    [get] reports the key as absent. *)
Theorem exists_tracks_lifetime key (v : value) text ttl dt w :
  reachable w -> JSON_stringify v = Some text -> 0 < ttl ->
  let stored := snd (CacheService.set key v ttl w) in
  fst (CacheService.exists_ key (elapse dt stored)) = Ok (dt <? ttl * 1000) /\
  (JSON_parse text = Some null -> dt < ttl * 1000 ->
   fst (CacheService.exists_ key (elapse dt stored)) = Ok true /\
   fst (CacheService.get key (elapse dt stored)) = Ok null).
Proof.
  intros Hup Htext Httl. cbv zeta.
  rewrite (set_reachable key v ttl text w Hup Htext Httl). cbn [snd].
  set (w1 := elapse dt _).
  assert (Hup1 : reachable w1) by exact Hup.
  assert (Hpeek : peek w1 key =
            if dt <? ttl * 1000 then Some (Entry text (Some (now w + ttl * 1000))) else None).
  { subst w1. rewrite peek_elapse_insert, decide_True by reflexivity.
    cbn [record advance now]. rewrite alive_deadline. now rewrite ltb_shift. }
  assert (Hexists : fst (CacheService.exists_ key w1) = Ok (dt <? ttl * 1000)).
  { rewrite exists_eq, !Hup1, Hpeek. cbn [fst].
    now destruct (dt <? ttl * 1000). }
  split; [exact Hexists|].
  intros Hnull Hdt. rewrite Hexists.
  destruct (Z.ltb_spec dt (ttl * 1000)) as [_|]; [|lia].
  split; [reflexivity|].
  rewrite get_reachable, Hpeek by exact Hup1.
  destruct (Z.ltb_spec dt (ttl * 1000)) as [_|]; [|lia].
  cbn [fst decode data]. destruct text; [reflexivity|]. now rewrite Hnull.
Qed.

(** X7.  [setNX] lets the first writer win: on a free key it stores the value
    and returns [true]; a second [setNX] returns [false] and leaves the first
    entry, value and deadline, for as long as that entry lives, and succeeds
    with its own value once the first lifetime has run out. *)
Theorem setNX_first_writer_wins key (v1 v2 : value) text1 text2 ttl1 ttl2 dt w :
  reachable w -> peek w key = None ->
  JSON_stringify v1 = Some text1 -> JSON_stringify v2 = Some text2 ->
  0 < ttl1 -> 0 < ttl2 ->
  let first := CacheService.setNX key v1 ttl1 w in
  let second := CacheService.setNX key v2 ttl2 (elapse dt (snd first)) in
  fst first = Ok true /\
  fst second = Ok (negb (dt <? ttl1 * 1000)) /\
  peek (snd second) key =
    Some (if dt <? ttl1 * 1000
          then Entry text1 (Some (now w + ttl1 * 1000))
          else Entry text2 (Some (now w + dt + ttl2 * 1000))).
Proof.
  intros Hup Habsent Ht1 Ht2 Httl1 Httl2. cbv zeta.
  rewrite setNX_eq, !Hup, Ht1, Habsent. cbv zeta.
  destruct (Z.leb_spec ttl1 0); [lia|]. cbn [fst snd].
  split; [reflexivity|].
  set (w1 := elapse dt _).
  assert (Hup1 : reachable w1) by exact Hup.
  assert (Hpeek : peek w1 key =
            if dt <? ttl1 * 1000 then Some (Entry text1 (Some (now w + ttl1 * 1000))) else None).
  { subst w1. rewrite peek_elapse_insert, decide_True by reflexivity.
    cbn [record advance now]. rewrite alive_deadline. now rewrite ltb_shift. }
  rewrite setNX_eq, !Hup1, Ht2, Hpeek. cbv zeta.
  destruct (Z.leb_spec ttl2 0); [lia|].
  destruct (dt <? ttl1 * 1000) eqn:Hdt; cbn [fst snd negb].
  - split; [reflexivity|].
    change (peek (record ?ev (advance (advance w1))) key) with (peek w1 key).
    exact Hpeek.
  - split; [reflexivity|].
    unfold peek. cbn [with_store store now record advance].
    rewrite lookup_insert_eq.
    replace (alive (now w1) _) with true; [reflexivity|].
    symmetry. rewrite alive_deadline. apply Z.ltb_lt. lia.
Qed.

(** X8.  [expire] on a live key returns [true] and replaces its lifetime: the
    value is then served for [seconds] seconds from that moment, and a
    lifetime that is not positive removes the key at once.  On a key that has
    been deleted [expire] returns [false]. *)
Theorem expire_replaces_lifetime key (v v' : value) text ttl seconds dt w :
  reachable w ->
  JSON_stringify v = Some text -> text <> "" -> JSON_parse text = Some v' ->
  0 < ttl ->
  let stored := snd (CacheService.set key v ttl w) in
  let touched := CacheService.expire key seconds stored in
  fst touched = Ok true /\
  fst (CacheService.get key (elapse dt (snd touched)))
    = Ok (if (0 <? seconds) && (dt <? seconds * 1000) then v' else null) /\
  fst (CacheService.expire key seconds (snd (CacheService.del key stored))) = Ok false.
Proof.
  intros Hup Htext Hne Hparse Httl. cbv zeta.
  rewrite (set_reachable key v ttl text w Hup Htext Httl). cbn [snd].
  set (w1 := with_store _ _).
  assert (Hup1 : reachable w1) by exact Hup.
  assert (Hpeek : peek w1 key = Some (Entry text (Some (now w + ttl * 1000)))).
  { eapply peek_insert_alive; [|reflexivity]. rewrite alive_deadline.
    apply Z.ltb_lt. subst w1. cbn. lia. }
  split; [|split].
  - rewrite expire_eq, !Hup1, Hpeek. cbv zeta. now destruct (seconds <=? 0).
  - rewrite expire_eq, !Hup1, Hpeek. cbv zeta. cbn [data].
    destruct (Z.leb_spec seconds 0) as [Hs|Hs]; cbn [snd].
    + destruct (Z.ltb_spec 0 seconds); [lia|]. cbn [andb].
      apply get_miss. unfold peek. cbn [elapse with_store store record advance].
      now rewrite lookup_delete_eq.
    + destruct (Z.ltb_spec 0 seconds); [|lia]. cbn [andb].
      set (w2 := with_store _ _).
      rewrite <- (ltb_shift (now w2) dt (seconds * 1000)).
      apply (get_entry key v' text (now w2 + seconds * 1000) dt w2);
        [exact Hup | | exact Hne | exact Hparse].
      subst w2. cbn [with_store store]. apply lookup_insert_eq.
  - rewrite del_eq, !Hup1. cbv zeta. cbn [snd].
    set (w2 := with_store _ _).
    assert (Hup2 : reachable w2) by exact Hup.
    rewrite expire_eq, !Hup2. cbv zeta.
    replace (peek w2 key) with (@None entry); [reflexivity|].
    symmetry. subst w2. rewrite peek_delete. now rewrite decide_True.
Qed.
End Primitives.

(** * Further properties of [app/lib/rate-limit.ts] *)

Lemma reachable_from_all w : reachable w -> reachable_from w.
Proof. intros Hup i _. apply Hup. Qed.

Lemma reachable_from_later w w' :
  online w' = online w -> (tick w <= tick w')%nat ->
  reachable_from w -> reachable_from w'.
Proof. intros Ho Ht Hup i Hi. rewrite Ho. apply Hup. lia. Qed.

Lemma incr_from key w :
  reachable_from w ->
  CacheService.incr key w =
  let w1 := record (INCR key) (advance (advance w)) in
  match peek w key with
  | None => (Ok 1, with_store (insert key (Entry "1" None)) w1)
  | Some e =>
      match string2ll (data e) with
      | None => (Ok 0, w1)
      | Some n =>
          if n =? LLONG_MAX then (Ok 0, w1)
          else (Ok (n + 1),
                with_store (insert key (Entry (Number_toString (n + 1)) (deadline e))) w1)
      end
  end.
Proof.
  intros Hup. rewrite incr_eq.
  rewrite (Hup (tick w)), (Hup (S (tick w))) by lia. reflexivity.
Qed.

Lemma incr_from_count key w :
  reachable_from w -> fst (CacheService.incr key w) = Ok (next_count (peek w key)).
Proof.
  intros Hup. rewrite (incr_from key w Hup). cbv zeta. unfold next_count.
  destruct (peek w key) as [e|]; [|reflexivity].
  destruct (string2ll (data e)) as [n|]; [|reflexivity].
  destruct (n =? LLONG_MAX); reflexivity.
Qed.

(** With the store reachable the verdict is a function of what is under the
    key and of the clock. *)
Lemma check_verdict userId action maxRequests windowSeconds w :
  reachable_from w ->
  fst (RateLimiter.check userId action maxRequests windowSeconds w)
  = Ok (verdict_of maxRequests windowSeconds (now w)
          (next_count (peek w (CacheKeys.rateLimit userId action)))).
Proof.
  intros Hup.
  pose proof (check_eq userId action maxRequests windowSeconds w) as E.
  cbv zeta in E. rewrite E. clear E.
  now rewrite (incr_from_count _ w Hup).
Qed.

(** [check] touches no key but its counter. *)
Lemma check_other_keys userId action maxRequests windowSeconds w k :
  k <> CacheKeys.rateLimit userId action ->
  store (snd (RateLimiter.check userId action maxRequests windowSeconds w)) !! k
  = store w !! k.
Proof.
  intros Hk.
  pose proof (check_eq userId action maxRequests windowSeconds w) as E.
  cbv zeta in E. rewrite E. clear E.
  set (key := CacheKeys.rateLimit userId action) in *.
  assert (Hincr : store (snd (CacheService.incr key w)) !! k = store w !! k).
  { rewrite incr_eq.
    destruct (online w (tick w)); [|reflexivity].
    cbv zeta. destruct (online w (S (tick w))); [|reflexivity].
    destruct (peek w key) as [e|];
      [|cbn [snd with_store store record advance]; now rewrite lookup_insert_ne].
    destruct (string2ll (data e)) as [n|]; [|reflexivity].
    destruct (n =? LLONG_MAX); [reflexivity|].
    cbn [snd with_store store record advance]. now rewrite lookup_insert_ne. }
  assert (Hexpire : forall s w1, store (snd (CacheService.expire key s w1)) !! k = store w1 !! k).
  { intros s w1. rewrite expire_eq.
    destruct (online w1 (tick w1)); [|reflexivity].
    cbv zeta. destruct (online w1 (S (tick w1))); [|reflexivity].
    destruct (peek w1 key) as [e|]; [|reflexivity].
    destruct (s <=? 0); cbn [snd with_store store record advance];
      [now rewrite lookup_delete_ne | now rewrite lookup_insert_ne]. }
  destruct (incr_never_throws key w) as [count Hc]. rewrite Hc. cbn [snd].
  unfold after_expire. destruct (count =? 1); [rewrite Hexpire|]; exact Hincr.
Qed.

Lemma check_counting_from userId action maxRequests windowSeconds c D w :
  reachable_from w ->
  peek w (CacheKeys.rateLimit userId action) = Some (Entry (Number_toString c) D) ->
  1 <= c < LLONG_MAX ->
  RateLimiter.check userId action maxRequests windowSeconds w =
  (Ok (verdict_of maxRequests windowSeconds (now w) (c + 1)),
   with_store (insert (CacheKeys.rateLimit userId action)
                 (Entry (Number_toString (c + 1)) D))
     (record (INCR (CacheKeys.rateLimit userId action)) (advance (advance w)))).
Proof.
  intros Hup Hpeek Hc.
  pose proof (check_eq userId action maxRequests windowSeconds w) as E.
  cbv zeta in E. rewrite E. clear E.
  rewrite (incr_from _ w Hup), Hpeek. cbv zeta. cbn [data deadline].
  rewrite string2ll_toString by (unfold LLONG_MIN, LLONG_MAX in *; lia).
  destruct (Z.eqb_spec c LLONG_MAX) as [->|_]; [lia|]. cbn [fst snd].
  unfold after_expire. destruct (Z.eqb_spec (c + 1) 1); [lia | reflexivity].
Qed.

Lemma check_first_from userId action maxRequests windowSeconds w :
  reachable_from w ->
  peek w (CacheKeys.rateLimit userId action) = None -> 0 < windowSeconds ->
  RateLimiter.check userId action maxRequests windowSeconds w =
  (Ok (verdict_of maxRequests windowSeconds (now w) 1),
   with_store (insert (CacheKeys.rateLimit userId action)
                 (Entry "1" (Some (now w + windowSeconds * 1000))))
     (record (EXPIRE (CacheKeys.rateLimit userId action) windowSeconds)
        (advance (advance
           (with_store (insert (CacheKeys.rateLimit userId action) (Entry "1" None))
              (record (INCR (CacheKeys.rateLimit userId action))
                 (advance (advance w)))))))).
Proof.
  intros Hup Hpeek Hwin.
  pose proof (check_eq userId action maxRequests windowSeconds w) as E.
  cbv zeta in E. rewrite E. clear E.
  set (key := CacheKeys.rateLimit userId action) in *.
  rewrite (incr_from _ w Hup), Hpeek. cbv zeta. cbn [fst snd].
  unfold after_expire. cbn [Z.eqb Pos.eqb].
  set (w1 := with_store _ _).
  assert (Hpeek1 : peek w1 key = Some (Entry "1" None)).
  { apply peek_lookup; [|reflexivity]. subst w1. cbn. apply lookup_insert_eq. }
  rewrite expire_eq.
  change (online w1) with (online w). change (tick w1) with (S (S (tick w))).
  rewrite (Hup (S (S (tick w)))), (Hup (S (S (S (tick w))))) by lia.
  rewrite Hpeek1. cbv zeta.
  destruct (Z.leb_spec windowSeconds 0); [lia | reflexivity].
Qed.

Lemma total_nonneg delays : Forall (fun dt => 0 <= dt) delays -> 0 <= total delays.
Proof. induction 1 as [|dt rest Hdt _ IH]; cbn; [lia|]. fold (total rest). lia. Qed.

Lemma burst_counting_from userId action maxRequests windowSeconds delays :
  forall c D w,
  reachable_from w ->
  store w !! CacheKeys.rateLimit userId action = Some (Entry (Number_toString c) D) ->
  1 <= c -> c + Z.of_nat (length delays) <= LLONG_MAX ->
  Forall (fun dt => 0 <= dt) delays ->
  (forall d, D = Some d -> now w + total delays < d) ->
  let out := burst userId action maxRequests windowSeconds delays w in
  map summary (fst out) = counts maxRequests c (length delays) /\
  reachable_from (snd out) /\
  store (snd out) !! CacheKeys.rateLimit userId action
    = Some (Entry (Number_toString (c + Z.of_nat (length delays))) D) /\
  expires (CacheKeys.rateLimit userId action) (snd out)
    = expires (CacheKeys.rateLimit userId action) w /\
  now (snd out) = now w + total delays.
Proof.
  induction delays as [|dt rest IH]; intros c D w Hup Hstore Hc Hmax Hpos Hlate.
  - cbn [burst fst snd map counts length total foldr].
    rewrite !Z.add_0_r. repeat split; assumption.
  - inversion Hpos as [|? ? Hdt Hrest]; subst.
    cbn [length total foldr] in *. fold (total rest) in *.
    pose proof (total_nonneg rest Hrest) as Hsum.
    cbn [burst].
    assert (Hpeek : peek (elapse dt w) (CacheKeys.rateLimit userId action)
                    = Some (Entry (Number_toString c) D)).
    { apply peek_lookup; [exact Hstore|]. unfold alive. cbn [deadline elapse now].
      destruct D as [d|]; [|reflexivity]. apply Z.ltb_lt.
      specialize (Hlate d eq_refl). lia. }
    rewrite (check_counting_from userId action maxRequests windowSeconds c D (elapse dt w))
      by (exact Hup || exact Hpeek || lia).
    set (w1 := with_store _ _).
    assert (Hup1 : reachable_from w1)
      by (intros i Hi; apply Hup; subst w1; cbn in *; lia).
    specialize (IH (c + 1) D w1 Hup1).
    destruct IH as (IHs & IHup & IHstore & IHexp & IHnow);
      [subst w1; cbn; apply lookup_insert_eq | lia | lia | exact Hrest
      | intros d Hd; specialize (Hlate d Hd); subst w1; cbn; lia |].
    cbv zeta in IHs, IHup, IHstore, IHexp, IHnow.
    destruct (burst userId action maxRequests windowSeconds rest w1) as [rs w2].
    cbn [fst snd map counts summary verdict_of allowed remaining current] in *.
    rewrite IHs. split; [reflexivity|]. split; [exact IHup|]. split.
    { rewrite IHstore. do 3 f_equal. lia. }
    split.
    { rewrite IHexp. subst w1. unfold expires. reflexivity. }
    rewrite IHnow. subst w1. cbn. lia.
Qed.

(** A whole window, from the request that creates the counter. *)
Lemma burst_window_from userId action maxRequests windowSeconds d1 delays w :
  reachable_from w ->
  peek (elapse d1 w) (CacheKeys.rateLimit userId action) = None ->
  0 < windowSeconds ->
  Z.of_nat (length delays) < LLONG_MAX ->
  Forall (fun dt => 0 <= dt) delays ->
  total delays < windowSeconds * 1000 ->
  let out := burst userId action maxRequests windowSeconds (d1 :: delays) w in
  map summary (fst out) = counts maxRequests 0 (S (length delays)) /\
  reachable_from (snd out) /\
  store (snd out) !! CacheKeys.rateLimit userId action
    = Some (Entry (Number_toString (1 + Z.of_nat (length delays)))
              (Some (now w + d1 + windowSeconds * 1000))) /\
  expires (CacheKeys.rateLimit userId action) (snd out)
    = windowSeconds :: expires (CacheKeys.rateLimit userId action) w /\
  now (snd out) = now w + d1 + total delays.
Proof.
  intros Hup Habsent Hwin Hlen Hpos Hlate. cbv zeta. cbn [burst].
  rewrite (check_first_from userId action maxRequests windowSeconds (elapse d1 w))
    by (exact Hup || assumption).
  set (w1 := with_store _ _).
  assert (Hup1 : reachable_from w1)
    by (intros i Hi; apply Hup; subst w1; cbn in *; lia).
  destruct (burst_counting_from userId action maxRequests windowSeconds delays 1
              (Some (now w + d1 + windowSeconds * 1000)) w1 Hup1)
    as (Hs & Hup2 & Hstore & Hexp & Hnow);
    [subst w1; cbn; apply lookup_insert_eq | lia | lia | exact Hpos
    | intros d [= <-]; subst w1; cbn; lia |].
  cbv zeta in Hs, Hstore, Hexp, Hnow, Hup2.
  destruct (burst userId action maxRequests windowSeconds delays w1) as [rs w2].
  cbn [fst snd map counts summary verdict_of allowed remaining current] in *.
  rewrite Hs. split; [reflexivity|]. split; [exact Hup2|]. split; [exact Hstore|].
  split.
  - rewrite Hexp. subst w1. unfold expires. cbn. now rewrite decide_True.
  - rewrite Hnow. subst w1. cbn. lia.
Qed.

Lemma counts_lookup maxRequests n : forall c i,
  (i < n)%nat ->
  counts maxRequests c n !! i
  = Some (Some (c + Z.of_nat (S i) <=? maxRequests,
                Z.max 0 (maxRequests - (c + Z.of_nat (S i))),
                c + Z.of_nat (S i))).
Proof.
  induction n as [|n IH]; intros c i Hi; [lia|].
  destruct i as [|i]; cbn [counts lookup list_lookup].
  - reflexivity.
  - rewrite IH by lia.
    replace (c + 1 + Z.of_nat (S i)) with (c + Z.of_nat (S (S i))) by lia.
    reflexivity.
Qed.

(** X9.  The fixed window for any limit: in a run of requests that starts
    with no counter and stays within one window, the request number [i + 1]
    sees the count [i + 1]; it is allowed exactly when [i + 1 <= maxRequests],
    and [remaining] is what is left of the limit, floored at 0. *)
Theorem fixed_window_admits_the_first userId action maxRequests windowSeconds d1 delays w i :
  reachable w ->
  peek (elapse d1 w) (CacheKeys.rateLimit userId action) = None ->
  0 < windowSeconds ->
  Z.of_nat (length delays) < LLONG_MAX ->
  Forall (fun dt => 0 <= dt) delays ->
  total delays < windowSeconds * 1000 ->
  (i <= length delays)%nat ->
  map summary (fst (burst userId action maxRequests windowSeconds (d1 :: delays) w)) !! i
  = Some (Some (Z.of_nat (S i) <=? maxRequests,
                Z.max 0 (maxRequests - Z.of_nat (S i)),
                Z.of_nat (S i))).
Proof.
  intros Hup Habsent Hwin Hlen Hpos Hlate Hi.
  destruct (burst_window_from userId action maxRequests windowSeconds d1 delays w
              (reachable_from_all w Hup) Habsent Hwin Hlen Hpos Hlate) as (Hs & _).
  cbv zeta in Hs. rewrite Hs, counts_lookup by lia.
  now rewrite !Z.add_0_l.
Qed.

(** X10.  The window resets: when a request arrives after the window opened
    by the first request has run out, counting starts from 1 again, and the
    new counter gets an expiry of its own (a second [EXPIRE]). *)
Theorem window_resets userId action maxRequests windowSeconds d1 delays1 gap delays2 w :
  reachable w ->
  peek (elapse d1 w) (CacheKeys.rateLimit userId action) = None ->
  0 < windowSeconds ->
  Z.of_nat (length delays1) < LLONG_MAX -> Z.of_nat (length delays2) < LLONG_MAX ->
  Forall (fun dt => 0 <= dt) delays1 -> Forall (fun dt => 0 <= dt) delays2 ->
  total delays1 < windowSeconds * 1000 -> total delays2 < windowSeconds * 1000 ->
  windowSeconds * 1000 <= total delays1 + gap ->
  let first := burst userId action maxRequests windowSeconds (d1 :: delays1) w in
  let second := burst userId action maxRequests windowSeconds (gap :: delays2) (snd first) in
  map summary (fst first) = counts maxRequests 0 (S (length delays1)) /\
  map summary (fst second) = counts maxRequests 0 (S (length delays2)) /\
  expires (CacheKeys.rateLimit userId action) (snd second)
    = windowSeconds :: windowSeconds :: expires (CacheKeys.rateLimit userId action) w.
Proof.
  intros Hup Habsent Hwin Hlen1 Hlen2 Hpos1 Hpos2 Hlate1 Hlate2 Hgap. cbv zeta.
  destruct (burst_window_from userId action maxRequests windowSeconds d1 delays1 w
              (reachable_from_all w Hup) Habsent Hwin Hlen1 Hpos1 Hlate1)
    as (Hs1 & Hup1 & Hstore1 & Hexp1 & Hnow1).
  cbv zeta in Hs1, Hup1, Hstore1, Hexp1, Hnow1.
  set (w1 := snd (burst userId action maxRequests windowSeconds (d1 :: delays1) w)) in *.
  assert (Hgone : peek (elapse gap w1) (CacheKeys.rateLimit userId action) = None).
  { unfold peek. cbn [elapse store now]. rewrite Hstore1, alive_deadline, Hnow1.
    destruct (Z.ltb_spec (now w + d1 + total delays1 + gap)
                (now w + d1 + windowSeconds * 1000)); [lia | reflexivity]. }
  destruct (burst_window_from userId action maxRequests windowSeconds gap delays2 w1
              Hup1 Hgone Hwin Hlen2 Hpos2 Hlate2) as (Hs2 & _ & _ & Hexp2 & _).
  cbv zeta in Hs2, Hexp2.
  split; [exact Hs1|]. split; [exact Hs2|]. now rewrite Hexp2, Hexp1.
Qed.





(** X12.  [check] ignores the boolean [expire] returns.  If the store is
    reachable for the [INCR] that creates the counter and not for the [expire]
    that follows, no [EXPIRE] is issued, then or later: the counter has no
    deadline, and it keeps counting over any stretch of time, so that requests
    beyond the limit stay rejected long after the window. *)
Theorem lost_expire_never_resets userId action maxRequests windowSeconds delays w :
  online w (tick w) = true -> online w (S (tick w)) = true ->
  online w (S (S (tick w))) = false ->
  (forall i, (S (S (S (tick w))) <= i)%nat -> online w i = true) ->
  peek w (CacheKeys.rateLimit userId action) = None ->
  Z.of_nat (length delays) < LLONG_MAX ->
  Forall (fun dt => 0 <= dt) delays ->
  let first := RateLimiter.check userId action maxRequests windowSeconds w in
  let later := burst userId action maxRequests windowSeconds delays (snd first) in
  summary (fst first) = Some (1 <=? maxRequests, Z.max 0 (maxRequests - 1), 1) /\
  map summary (fst later) = counts maxRequests 1 (length delays) /\
  store (snd later) !! CacheKeys.rateLimit userId action
    = Some (Entry (Number_toString (1 + Z.of_nat (length delays))) None) /\
  expires (CacheKeys.rateLimit userId action) (snd later)
    = expires (CacheKeys.rateLimit userId action) w.
Proof.
  intros H0 H1 H2 Hlater Habsent Hlen Hpos. cbv zeta.
  pose proof (check_eq userId action maxRequests windowSeconds w) as E.
  cbv zeta in E. rewrite E. clear E.
  set (key := CacheKeys.rateLimit userId action) in *.
  rewrite incr_eq, H0, H1, Habsent. cbv zeta. cbn [fst snd].
  unfold after_expire. cbn [Z.eqb Pos.eqb].
  set (w1 := with_store _ _).
  rewrite expire_eq.
  change (online w1 (tick w1)) with (online w (S (S (tick w)))). rewrite H2.
  cbn [snd summary allowed remaining current].
  split; [reflexivity|].
  assert (Hup : reachable_from (advance w1))
    by (intros i Hi; apply Hlater; subst w1; cbn in *; lia).
  destruct (burst_counting_from userId action maxRequests windowSeconds delays 1 None
              (advance w1) Hup) as (Hs & _ & Hstore & Hexp & _);
    [subst w1; cbn; apply lookup_insert_eq | lia | lia | exact Hpos | discriminate |].
  cbv zeta in Hs, Hstore, Hexp. fold key in Hstore, Hexp.
  split; [exact Hs|]. split; [exact Hstore|].
  rewrite Hexp. reflexivity.
Qed.

Lemma check_stuck_from userId action maxRequests windowSeconds e w :
  reachable_from w ->
  peek w (CacheKeys.rateLimit userId action) = Some e ->
  string2ll (data e) = None \/ string2ll (data e) = Some LLONG_MAX ->
  RateLimiter.check userId action maxRequests windowSeconds w =
  (Ok (verdict_of maxRequests windowSeconds (now w) 0),
   record (INCR (CacheKeys.rateLimit userId action)) (advance (advance w))).
Proof.
  intros Hup Hpeek Hbad.
  pose proof (check_eq userId action maxRequests windowSeconds w) as E.
  cbv zeta in E. rewrite E. clear E.
  rewrite (incr_from _ w Hup), Hpeek. cbv zeta.
  destruct Hbad as [-> | ->]; [reflexivity|].
  rewrite Z.eqb_refl. reflexivity.
Qed.

(** X13.  A counter key whose text is not an integer (or is the largest
    64-bit integer) makes [INCR] fail, and [incr] turns the failure into the
    count 0: as long as that entry lives every [check] is allowed with
    [current = 0] and [remaining = maxRequests], the entry is left as it is
    and no [EXPIRE] is issued. *)
Theorem unreadable_counter_disables_the_limit
    userId action maxRequests windowSeconds e delays : forall w,
  reachable w ->
  store w !! CacheKeys.rateLimit userId action = Some e ->
  string2ll (data e) = None \/ string2ll (data e) = Some LLONG_MAX ->
  0 <= maxRequests ->
  Forall (fun dt => 0 <= dt) delays ->
  alive (now w + total delays) e = true ->
  let out := burst userId action maxRequests windowSeconds delays w in
  Forall (fun r => summary r = Some (true, maxRequests, 0)) (fst out) /\
  store (snd out) = store w /\
  expires (CacheKeys.rateLimit userId action) (snd out)
    = expires (CacheKeys.rateLimit userId action) w.
Proof.
  intros w Hup. apply reachable_from_all in Hup. revert w Hup.
  induction delays as [|dt rest IH]; intros w Hup Hstore Hbad Hmax Hpos Halive; cbv zeta.
  - cbn. repeat split. constructor.
  - inversion Hpos as [|? ? Hdt Hrest]; subst.
    cbn [total foldr] in Halive. fold (total rest) in Halive.
    pose proof (total_nonneg rest Hrest) as Hsum.
    assert (Hstep : forall t, t <= now w + (dt + total rest) -> alive t e = true).
    { intros t Ht. unfold alive in *. destruct (deadline e) as [d|]; [|reflexivity].
      apply Z.ltb_lt in Halive. apply Z.ltb_lt. lia. }
    cbn [burst].
    assert (Hpeek : peek (elapse dt w) (CacheKeys.rateLimit userId action) = Some e).
    { apply peek_lookup; [exact Hstore|]. apply Hstep. cbn. lia. }
    rewrite (check_stuck_from userId action maxRequests windowSeconds e (elapse dt w)
               Hup Hpeek Hbad).
    set (w1 := record _ _).
    assert (Hup1 : reachable_from w1)
      by (intros i Hi; apply Hup; subst w1; cbn in *; lia).
    destruct (IH w1 Hup1 Hstore Hbad Hmax Hrest) as (IHall & IHstore & IHexp).
    { apply Hstep. subst w1. cbn. lia. }
    cbv zeta in IHall, IHstore, IHexp.
    destruct (burst userId action maxRequests windowSeconds rest w1) as [rs w2].
    cbn [fst snd] in *.
    split; [|split; [exact IHstore | rewrite IHexp; reflexivity]].
    constructor; [|exact IHall].
    cbn [summary verdict_of allowed remaining current].
    replace (0 <=? maxRequests) with true by (symmetry; now apply Z.leb_le).
    now replace (Z.max 0 (maxRequests - 0)) with maxRequests by lia.
Qed.

(** ** Counter keys *)

Lemma app_separator_inj c a1 : forall a2 b1 b2,
  free_of c a1 = true -> free_of c a2 = true ->
  a1 +:+ String c b1 = a2 +:+ String c b2 -> a1 = a2 /\ b1 = b2.
Proof.
  induction a1 as [|x a1 IH]; intros [|y a2] b1 b2 H1 H2 E; cbn in *.
  - injection E as ->. now split.
  - injection E as <- _. now rewrite Ascii.eqb_refl in H2.
  - injection E as -> _. now rewrite Ascii.eqb_refl in H1.
  - injection E as -> E.
    apply andb_prop in H1 as [_ H1]. apply andb_prop in H2 as [_ H2].
    destruct (IH a2 b1 b2 H1 H2 E) as [-> ->]. now split.
Qed.

Lemma rateLimit_inj userId1 action1 userId2 action2 :
  free_of ":" action1 = true -> free_of ":" action2 = true ->
  CacheKeys.rateLimit userId1 action1 = CacheKeys.rateLimit userId2 action2 ->
  userId1 = userId2 /\ action1 = action2.
Proof.
  intros H1 H2 E. unfold CacheKeys.rateLimit in E.
  cbn in E. repeat injection E as E.
  destruct (app_separator_inj ":" action1 action2 userId1 userId2 H1 H2 E) as [-> ->].
  now split.
Qed.

(** X14.  Counters do not interfere: for action names without a colon, a
    [check] for one (subject, action) leaves the counter of any other pair
    untouched, and the verdict of a following [check] for that other pair is
    what it would have been without it. *)
Theorem counters_are_independent
    userId1 action1 max1 window1 userId2 action2 max2 window2 w :
  reachable w ->
  free_of ":" action1 = true -> free_of ":" action2 = true ->
  userId1 <> userId2 \/ action1 <> action2 ->
  let after := snd (RateLimiter.check userId1 action1 max1 window1 w) in
  store after !! CacheKeys.rateLimit userId2 action2
    = store w !! CacheKeys.rateLimit userId2 action2 /\
  fst (RateLimiter.check userId2 action2 max2 window2 after)
    = fst (RateLimiter.check userId2 action2 max2 window2 w).
Proof.
  intros Hup H1 H2 Hdiff. cbv zeta.
  assert (Hkeys : CacheKeys.rateLimit userId2 action2 <> CacheKeys.rateLimit userId1 action1).
  { intros E. destruct (rateLimit_inj _ _ _ _ H2 H1 E) as [-> ->].
    destruct Hdiff as [Hd|Hd]; now apply Hd. }
  pose proof (check_other_keys userId1 action1 max1 window1 w _ Hkeys) as Hstore.
  pose proof (check_now userId1 action1 max1 window1 w) as Hnow.
  split; [exact Hstore|].
  set (after := snd (RateLimiter.check userId1 action1 max1 window1 w)) in *.
  assert (Hup' : reachable_from after).
  { intros i _.
    replace (online after) with (online w); [apply Hup|].
    subst after.
    pose proof (check_eq userId1 action1 max1 window1 w) as E. cbv zeta in E.
    rewrite E. clear E.
    destruct (incr_never_throws (CacheKeys.rateLimit userId1 action1) w) as [count Hc].
    rewrite Hc. cbn [snd]. unfold after_expire.
    assert (Hincr : online (snd (CacheService.incr (CacheKeys.rateLimit userId1 action1) w))
                    = online w).
    { rewrite incr_eq. destruct (online w (tick w)); [|reflexivity].
      cbv zeta. destruct (online w (S (tick w))); [|reflexivity].
      destruct (peek w _) as [e|]; [|reflexivity].
      destruct (string2ll (data e)) as [n|]; [|reflexivity].
      destruct (n =? LLONG_MAX); reflexivity. }
    destruct (count =? 1); [|now rewrite Hincr].
    rewrite <- Hincr. symmetry.
    set (w1 := snd (CacheService.incr _ w)).
    rewrite expire_eq. destruct (online w1 (tick w1)); [|reflexivity].
    cbv zeta. destruct (online w1 (S (tick w1))); [|reflexivity].
    destruct (peek w1 _) as [e|]; [|reflexivity].
    destruct (window1 <=? 0); reflexivity. }
  rewrite (check_verdict userId2 action2 max2 window2 after Hup').
  rewrite (check_verdict userId2 action2 max2 window2 w (reachable_from_all w Hup)).
  unfold peek. now rewrite Hstore, Hnow.
Qed.

(** ** [applyRateLimit] and the table of limits *)

Lemma middleware_eq userId action maxRequests windowSeconds w :
  RateLimiter.middleware userId action maxRequests windowSeconds w =
  (respond maxRequests windowSeconds
     (fst (RateLimiter.check userId action maxRequests windowSeconds w)),
   snd (RateLimiter.check userId action maxRequests windowSeconds w)).
Proof.
  destruct (check_never_throws userId action maxRequests windowSeconds w) as [v Hv].
  assert (Hreset : resetAt v = now w + windowSeconds * 1000).
  { pose proof (check_eq userId action maxRequests windowSeconds w) as E.
    cbv zeta in E. rewrite E in Hv.
    destruct (fst (CacheService.incr _ w)); cbn [fst] in Hv;
      injection Hv as <-; cbn [resetAt]; [reflexivity|].
    now rewrite incr_now. }
  pose proof (check_now userId action maxRequests windowSeconds w) as Hnow.
  unfold RateLimiter.middleware, bind, Date_now, ret.
  destruct (RateLimiter.check userId action maxRequests windowSeconds w) as [r w1].
  cbn [fst snd] in *. subst r. cbn [respond].
  destruct (allowed v); cbn [negb]; [reflexivity|].
  now rewrite Hnow, Hreset, ceil_div_window.
Qed.

Lemma flood_burst userId a delays : forall w,
  let config := RateLimitConfig.lookup a in
  let checked := burst userId (RateLimitConfig.name a) (max config) (window config) delays w in
  flood userId a delays w
  = (map (respond (max config) (window config)) (fst checked), snd checked).
Proof.
  induction delays as [|dt rest IH]; intros w; cbv zeta; [reflexivity|].
  cbn [flood burst]. unfold applyRateLimit. cbv zeta. rewrite middleware_eq.
  destruct (RateLimiter.check userId (RateLimitConfig.name a) _ _ (elapse dt w)) as [r w1].
  cbn [fst snd]. specialize (IH w1). cbv zeta in IH. rewrite IH.
  destruct (burst userId (RateLimitConfig.name a) _ _ rest w1) as [rs w2].
  reflexivity.
Qed.

Lemma policy_is_sound a :
  0 < max (RateLimitConfig.lookup a) /\ window (RateLimitConfig.lookup a) = 60.
Proof. destruct a; cbn; split; (reflexivity || lia). Qed.

(** X15.  [applyRateLimit] enforces the table: for every action of
    [RateLimitConfig], in a run of requests of one subject that starts with no
    counter and stays within 60 seconds, a request up to the action's limit
    passes ([null]), and every later one gets a 429 whose
    [X-RateLimit-Limit] is that limit and whose [Retry-After] is 60. *)
Theorem applyRateLimit_enforces_the_table userId a d1 delays w i :
  reachable w ->
  peek (elapse d1 w) (CacheKeys.rateLimit userId (RateLimitConfig.name a)) = None ->
  Z.of_nat (length delays) < LLONG_MAX ->
  Forall (fun dt => 0 <= dt) delays ->
  total delays < 60 * 1000 ->
  (i <= length delays)%nat ->
  let limit := max (RateLimitConfig.lookup a) in
  let answers := fst (flood userId a (d1 :: delays) w) in
  (Z.of_nat (S i) <= limit -> answers !! i = Some (Ok None)) /\
  (limit < Z.of_nat (S i) ->
   exists resp, answers !! i = Some (Ok (Some resp)) /\
     status resp = 429 /\
     headers resp !! 0%nat = Some ("X-RateLimit-Limit", Number_toString limit) /\
     headers resp !! 3%nat = Some ("Retry-After", "60")).
Proof.
  intros Hup Habsent Hlen Hpos Hlate Hi. cbv zeta.
  destruct (policy_is_sound a) as [Hmax Hwindow].
  pose proof (flood_burst userId a (d1 :: delays) w) as E. cbv zeta in E.
  rewrite E. clear E. cbn [fst]. rewrite list_lookup_fmap.
  destruct (burst_window_from userId (RateLimitConfig.name a)
              (max (RateLimitConfig.lookup a)) (window (RateLimitConfig.lookup a))
              d1 delays w (reachable_from_all w Hup) Habsent)
    as (Hs & _); try assumption; try (rewrite Hwindow; lia).
  cbv zeta in Hs.
  assert (Hith : map summary
            (fst (burst userId (RateLimitConfig.name a) (max (RateLimitConfig.lookup a))
                    (window (RateLimitConfig.lookup a)) (d1 :: delays) w)) !! i
          = Some (Some (0 + Z.of_nat (S i) <=? max (RateLimitConfig.lookup a),
                        Z.max 0 (max (RateLimitConfig.lookup a) - (0 + Z.of_nat (S i))),
                        0 + Z.of_nat (S i))))
    by (rewrite Hs; apply counts_lookup; lia).
  rewrite list_lookup_fmap in Hith.
  destruct (fst (burst _ _ _ _ (d1 :: delays) w) !! i) as [[v|e]|]; try discriminate.
  cbn in Hith. injection Hith as Hallowed _ _.
  cbn [fmap option_fmap option_map respond]. rewrite Hallowed.
  split; intros Hcmp.
  - destruct (Z.leb_spec (0 + Z.of_nat (S i)) (max (RateLimitConfig.lookup a))); [reflexivity | lia].
  - destruct (Z.leb_spec (0 + Z.of_nat (S i)) (max (RateLimitConfig.lookup a))); [lia|].
    eexists. split; [reflexivity|]. cbn [status headers].
    split; [reflexivity|]. split; [reflexivity|].
    now rewrite Hwindow.
Qed.

Lemma check_unreachable userId action maxRequests windowSeconds w :
  unreachable w ->
  RateLimiter.check userId action maxRequests windowSeconds w =
  (Ok (verdict_of maxRequests windowSeconds (now w) 0), advance w).
Proof.
  intros Hdown.
  pose proof (check_eq userId action maxRequests windowSeconds w) as E.
  cbv zeta in E. rewrite E, (incr_unreachable _ _ Hdown). reflexivity.
Qed.

(** X16.  No action of the table is ever rejected because the store is
    away: with the store unreachable, every call of [applyRateLimit] returns
    [null] and the keyspace stays as it was. *)
Theorem applyRateLimit_fails_open userId a delays : forall w,
  unreachable w ->
  let out := flood userId a delays w in
  Forall (fun r => r = Ok None) (fst out) /\
  store (snd out) = store w.
Proof.
  induction delays as [|dt rest IH]; intros w Hdown; cbv zeta.
  - cbn. split; [constructor | reflexivity].
  - cbn [flood]. unfold applyRateLimit. cbv zeta. rewrite middleware_eq.
    assert (Hdown' : unreachable (elapse dt w)) by exact Hdown.
    rewrite (check_unreachable _ _ _ _ _ Hdown'). cbn [fst snd respond verdict_of allowed].
    destruct (policy_is_sound a) as [Hmax _].
    replace (0 <=? max (RateLimitConfig.lookup a)) with true
      by (symmetry; apply Z.leb_le; lia).
    assert (Hdown1 : unreachable (advance (elapse dt w))) by exact Hdown.
    destruct (IH _ Hdown1) as [IHall IHstore]. cbv zeta in IHall, IHstore.
    destruct (flood userId a rest (advance (elapse dt w))) as [rs w2].
    cbn [fst snd] in *. split; [now constructor | exact IHstore].
Qed.

(** * The ticket service and the cache *)

(** ** Patterns with a literal prefix *)

Lemma stringmatch_star key : stringmatch "*" key = true.
Proof.
  unfold stringmatch. cbn [list_ascii_of_string length glob_fuel Ascii.eqb Bool.eqb].
  induction (list_ascii_of_string key) as [|c s IH]; [reflexivity|].
  cbn [glob_fuel orb]. exact IH.
Qed.

Lemma stringmatch_cons x p c s :
  plain x = true ->
  stringmatch (String x p) (String c s) = Ascii.eqb x c && stringmatch p s.
Proof.
  unfold plain. intros Hx.
  apply andb_prop in Hx as [Hx H4]. apply andb_prop in Hx as [Hx H3].
  apply andb_prop in Hx as [H1 H2].
  apply negb_true_iff in H1, H2, H3, H4.
  unfold stringmatch. cbn [list_ascii_of_string length].
  cbn [glob_fuel]. rewrite H1, H2, H3.
  destruct (list_ascii_of_string p) as [|y p'] eqn:Hp.
  - destruct (Ascii.eqb x c); [|reflexivity]. reflexivity.
  - rewrite H4. destruct (Ascii.eqb x c); [|reflexivity]. reflexivity.
Qed.

Lemma stringmatch_cons_empty x p :
  plain x = true -> stringmatch (String x p) "" = false.
Proof.
  unfold plain. intros Hx.
  apply andb_prop in Hx as [Hx _]. apply andb_prop in Hx as [Hx _].
  apply andb_prop in Hx as [H1 _]. apply negb_true_iff in H1.
  unfold stringmatch. cbn [list_ascii_of_string length glob_fuel]. now rewrite H1.
Qed.

Lemma stringmatch_prefix a : forall p s,
  glob_plain a = true ->
  stringmatch (a +:+ p) (a +:+ s) = stringmatch p s.
Proof.
  induction a as [|x a IH]; intros p s Ha; [reflexivity|].
  cbn in Ha. apply andb_prop in Ha as [Hx Ha].
  change (stringmatch (String x (a +:+ p)) (String x (a +:+ s)) = stringmatch p s).
  rewrite (stringmatch_cons x _ x _ Hx), Ascii.eqb_refl.
  cbn [andb]. now apply IH.
Qed.

Lemma stringmatch_prefix_inv a : forall p k,
  glob_plain a = true ->
  stringmatch (a +:+ p) k = true ->
  exists s, k = a +:+ s /\ stringmatch p s = true.
Proof.
  induction a as [|x a IH]; intros p k Ha Hm; [exists k; now split|].
  cbn in Ha. apply andb_prop in Ha as [Hx Ha].
  change (stringmatch (String x (a +:+ p)) k = true) in Hm. destruct k as [|c k].
  - now rewrite (stringmatch_cons_empty x _ Hx) in Hm.
  - rewrite (stringmatch_cons x _ c _ Hx) in Hm.
    apply andb_prop in Hm as [Hc Hm]. apply Ascii.eqb_eq in Hc as <-.
    destruct (IH p k Ha Hm) as (s & -> & Hs). exists s. now split.
Qed.

Lemma glob_plain_app a b :
  glob_plain (a +:+ b) = glob_plain a && glob_plain b.
Proof.
  induction a as [|x a IH]; [reflexivity|].
  change (plain x && glob_plain (a +:+ b) = plain x && glob_plain a && glob_plain b).
  now rewrite IH, andb_assoc.
Qed.

Lemma app_assoc_string (a b c : string) : (a +:+ b) +:+ c = a +:+ (b +:+ c).
Proof.
  induction a as [|x a IH]; [reflexivity|].
  change (String x ((a +:+ b) +:+ c) = String x (a +:+ (b +:+ c))).
  now f_equal.
Qed.

Lemma pattern_matches_page userId role page pageSize :
  glob_plain userId = true -> glob_plain role = true ->
  stringmatch (TicketService.pattern userId role)
              (TicketService.cacheKey userId role page pageSize) = true.
Proof.
  intros Hu Hr. unfold TicketService.pattern, TicketService.cacheKey.
  rewrite stringmatch_prefix.
  - change (stringmatch (String ":" "*")
              (String ":" ("p" +:+ Number_toString page +:+ ":s" +:+ Number_toString pageSize))
            = true).
    rewrite stringmatch_cons by reflexivity. apply stringmatch_star.
  - unfold CacheKeys.ticketsList. rewrite !glob_plain_app, Hu, Hr. reflexivity.
Qed.

Lemma pattern_is_per_user userId1 role1 userId2 role2 page pageSize :
  glob_plain userId1 = true -> glob_plain role1 = true ->
  free_of ":" userId1 = true -> free_of ":" role1 = true ->
  free_of ":" userId2 = true -> free_of ":" role2 = true ->
  stringmatch (TicketService.pattern userId1 role1)
              (TicketService.cacheKey userId2 role2 page pageSize) = true ->
  userId1 = userId2 /\ role1 = role2.
Proof.
  intros Hu Hr Hcu1 Hcr1 Hcu2 Hcr2 Hm.
  unfold TicketService.pattern in Hm.
  change ":*" with (":" +:+ "*") in Hm. rewrite <- app_assoc_string in Hm.
  apply stringmatch_prefix_inv in Hm as (s & E & _).
  - unfold TicketService.cacheKey, CacheKeys.ticketsList in E.
    rewrite !app_assoc_string in E. cbn in E. repeat injection E as E.
    apply (app_separator_inj ":" role2 role1) in E as [-> E]; [|assumption..].
    apply (app_separator_inj ":" userId2 userId1) in E as [-> _]; [|assumption..].
    now split.
  - unfold CacheKeys.ticketsList. rewrite !glob_plain_app, Hu, Hr. reflexivity.
Qed.

Lemma delPattern_spares pattern k w :
  stringmatch pattern k = false ->
  peek (snd (CacheService.delPattern pattern w)) k = peek w k.
Proof.
  intros Hk. rewrite delPattern_eq.
  destruct (online w (tick w)); [|reflexivity].
  cbv zeta. destruct (online w (S (tick w))); [|reflexivity].
  destruct (length (matching pattern w) =? 0)%nat; [reflexivity|].
  destruct (online w (S (S (tick w)))); [|reflexivity].
  cbn [snd]. rewrite del_keys_peek.
  rewrite decide_False; [reflexivity|].
  intros Hin. apply matching_spec in Hin as [Hm _]. congruence.
Qed.

Lemma invalidate_eq userId role w :
  TicketService.invalidateTicketCache userId role w =
  (Ok tt, snd (CacheService.delPattern (TicketService.pattern userId role) w)).
Proof.
  unfold TicketService.invalidateTicketCache, try_catch, bind, ret.
  destruct (delPattern_never_throws (TicketService.pattern userId role) w) as [n Hn].
  destruct (CacheService.delPattern _ w) as [r w1]. cbn [fst snd] in *. now subst r.
Qed.

(** X17.  [invalidateTicketCache] removes every page [getTicketsByUser] can
    have cached for the user and role: over a reachable store, and for a user
    id and a role without pattern characters, no [cacheKey] of theirs is left,
    whatever the page and the page size; a key the pattern does not match is
    as before. *)
Theorem invalidation_covers_every_page userId role w :
  reachable w -> glob_plain userId = true -> glob_plain role = true ->
  let after := snd (TicketService.invalidateTicketCache userId role w) in
  (forall page pageSize,
     peek after (TicketService.cacheKey userId role page pageSize) = None) /\
  (forall k, stringmatch (TicketService.pattern userId role) k = false ->
     peek after k = peek w k).
Proof.
  intros Hup Hu Hr. cbv zeta. rewrite invalidate_eq. cbn [snd]. split.
  - intros page pageSize.
    destruct (delPattern_reachable (TicketService.pattern userId role) w Hup) as [_ Hgone].
    now rewrite Hgone, pattern_matches_page.
  - intros k Hk. now apply delPattern_spares.
Qed.

(** X18.  Among user ids and roles that hold no colon, and for an
    invalidated user id and role that hold no pattern character ([*], [?],
    [[] or backslash) either, [invalidateTicketCache] for one user and role
    leaves the cached pages of every other user or role, whatever the store
    does. *)
Theorem invalidation_is_per_user userId1 role1 userId2 role2 page pageSize w :
  glob_plain userId1 = true -> glob_plain role1 = true ->
  free_of ":" userId1 = true -> free_of ":" role1 = true ->
  free_of ":" userId2 = true -> free_of ":" role2 = true ->
  userId1 <> userId2 \/ role1 <> role2 ->
  peek (snd (TicketService.invalidateTicketCache userId1 role1 w))
       (TicketService.cacheKey userId2 role2 page pageSize)
  = peek w (TicketService.cacheKey userId2 role2 page pageSize).
Proof.
  intros Hu Hr Hcu1 Hcr1 Hcu2 Hcr2 Hdiff.
  rewrite invalidate_eq. cbn [snd]. apply delPattern_spares.
  destruct (stringmatch _ _) eqn:Hm; [|reflexivity].
  destruct (pattern_is_per_user _ _ _ _ _ _ Hu Hr Hcu1 Hcr1 Hcu2 Hcr2 Hm) as [-> ->].
  destruct Hdiff as [Hd|Hd]; now contradiction Hd.
Qed.

(** X19.  [invalidateTicketCache] never raises, and it never touches a key
    of another namespace: ticket details and replies, property, invoice and
    inspection lists and details, rate-limit counters and sessions are as
    before, for any ids, in any world. *)
Theorem invalidation_spares_other_namespaces userId role w :
  let after := snd (TicketService.invalidateTicketCache userId role w) in
  fst (TicketService.invalidateTicketCache userId role w) = Ok tt /\
  (forall id, peek after (CacheKeys.ticketDetail id) = peek w (CacheKeys.ticketDetail id)) /\
  (forall id, peek after (CacheKeys.ticketReplies id) = peek w (CacheKeys.ticketReplies id)) /\
  (forall u r, peek after (CacheKeys.propertiesList u r) = peek w (CacheKeys.propertiesList u r)) /\
  (forall id, peek after (CacheKeys.propertyDetail id) = peek w (CacheKeys.propertyDetail id)) /\
  (forall u r, peek after (CacheKeys.invoicesList u r) = peek w (CacheKeys.invoicesList u r)) /\
  (forall id, peek after (CacheKeys.invoiceDetail id) = peek w (CacheKeys.invoiceDetail id)) /\
  (forall u r, peek after (CacheKeys.inspectionsList u r) = peek w (CacheKeys.inspectionsList u r)) /\
  (forall u a, peek after (CacheKeys.rateLimit u a) = peek w (CacheKeys.rateLimit u a)) /\
  (forall u, peek after (CacheKeys.session u) = peek w (CacheKeys.session u)).
Proof.
  cbv zeta. rewrite invalidate_eq. cbn [fst snd].
  split; [reflexivity|].
  repeat split; intros; apply delPattern_spares;
    unfold TicketService.pattern, CacheKeys.ticketsList;
    rewrite !app_assoc_string;
    repeat (rewrite stringmatch_cons by reflexivity; cbn [Ascii.eqb Bool.eqb andb]);
    reflexivity.
Qed.

Lemma del_keys_journal keys : forall w,
  journal (snd (Redis.del_keys keys w)) = journal w.
Proof.
  induction keys as [|k rest IH]; intros w; [reflexivity|].
  cbn [Redis.del_keys]. specialize (IH (with_store (delete k) w)).
  destruct (Redis.del_keys rest (with_store (delete k) w)). exact IH.
Qed.

Lemma delPattern_fetches pattern w :
  fetches (snd (CacheService.delPattern pattern w)) = fetches w.
Proof.
  rewrite delPattern_eq.
  destruct (online w (tick w)); [|reflexivity].
  cbv zeta. destruct (online w (S (tick w))); [|reflexivity].
  destruct (length (matching pattern w) =? 0)%nat; [reflexivity|].
  destruct (online w (S (S (tick w)))); [|reflexivity].
  cbn [snd]. unfold fetches. now rewrite del_keys_journal.
Qed.

(** ** Reading ticket lists through the cache *)

Section TicketLists.
Context {value : Type} `{JS value}.
Variable falsy : value -> bool.
Variable emptyPage : Z -> Z -> value.

Lemma getOrSet_never_throws key (f : fetcher value) ttl w :
  exists v, fst (CacheService.getOrSet key f ttl w) = Ok v.
Proof.
  rewrite getOrSet_eq. destruct (get_never_throws key w) as [cached ->].
  destruct (decide (cached <> null)); [cbn; eauto|].
  cbv zeta. destruct f; cbn; eauto.
Qed.

Lemma getTicketsByUser_eq userId role page pageSize query w :
  let p := TicketService.or_default page 1 in
  let s := TicketService.or_default pageSize 10 in
  let out := CacheService.getOrSet (TicketService.cacheKey userId role p s)
               (query p s ((p - 1) * s)) CacheTTL.SHORT w in
  TicketService.getTicketsByUser falsy emptyPage userId role page pageSize query w =
  (match fst out with
   | Ok v => Ok (if falsy v then emptyPage p s else v)
   | Thrown e => Thrown e
   end, snd out).
Proof.
  cbv zeta. unfold TicketService.getTicketsByUser, bind, ret.
  destruct (CacheService.getOrSet _ _ _ w) as [[v|e] w1]; reflexivity.
Qed.

(** X20.  [getTicketsByUser] never raises and never returns a falsy value:
    when the query behind it rejects on a miss, the caller gets the empty page
    for the page and page size asked for (an absent or zero page counts as 1,
    an absent or zero page size as 10), and nothing is cached. *)
Theorem getTicketsByUser_masks_failures userId role page pageSize query w :
  falsy null = true ->
  (forall p s, falsy (emptyPage p s) = false) ->
  let p := TicketService.or_default page 1 in
  let s := TicketService.or_default pageSize 10 in
  let out := TicketService.getTicketsByUser falsy emptyPage userId role page pageSize query w in
  (exists v, fst out = Ok v /\ falsy v = false) /\
  (peek w (TicketService.cacheKey userId role p s) = None ->
   query p s ((p - 1) * s) = Rejects ->
   fst out = Ok (emptyPage p s) /\ store (snd out) = store w).
Proof.
  intros Hnull Hempty. cbv zeta.
  pose proof (getTicketsByUser_eq userId role page pageSize query w) as E.
  cbv zeta in E. rewrite E. clear E. cbn [fst snd]. split.
  - destruct (getOrSet_never_throws (TicketService.cacheKey userId role
                (TicketService.or_default page 1) (TicketService.or_default pageSize 10))
                (query (TicketService.or_default page 1) (TicketService.or_default pageSize 10)
                   ((TicketService.or_default page 1 - 1) * TicketService.or_default pageSize 10))
                CacheTTL.SHORT w) as [v ->].
    destruct (falsy v) eqn:Hv; eexists; split; try reflexivity; [apply Hempty | exact Hv].
  - intros Habsent Hq. rewrite Hq.
    rewrite getOrSet_miss by (now apply get_miss).
    cbv zeta. cbn [fst snd]. rewrite Hnull. split; [reflexivity|].
    cbn [record store]. apply get_store.
Qed.

Lemma peek_None_later key dt w :
  0 <= dt -> peek w key = None -> peek (elapse dt w) key = None.
Proof.
  intros Hdt. unfold peek. cbn [elapse store now].
  destruct (store w !! key) as [e|]; [|reflexivity].
  unfold alive. destruct (deadline e) as [d|]; [|discriminate].
  destruct (Z.ltb_spec (now w) d); [discriminate|]. intros _.
  destruct (Z.ltb_spec (now w + dt) d); [lia | reflexivity].
Qed.

(** X21.  Read, invalidate, read again, over a reachable store and for a
    user id and a role that hold no pattern character ([*], [?], [[] or
    backslash): a page cached by [getTicketsByUser] is still in the store
    when [invalidateTicketCache] runs within the minute; after it the key is
    gone, and the next [getTicketsByUser] runs its query and returns the new
    result. *)
Theorem reread_after_invalidation
    userId role page pageSize query1 query2 (v1 v2 : value) text d1 d2 w :
  let p := TicketService.or_default page 1 in
  let s := TicketService.or_default pageSize 10 in
  let key := TicketService.cacheKey userId role p s in
  reachable w -> glob_plain userId = true -> glob_plain role = true ->
  peek w key = None ->
  query1 p s ((p - 1) * s) = Resolves v1 -> JSON_stringify v1 = Some text ->
  falsy v1 = false ->
  query2 p s ((p - 1) * s) = Resolves v2 -> falsy v2 = false ->
  0 <= d1 < CacheTTL.SHORT * 1000 -> 0 <= d2 ->
  let first := TicketService.getTicketsByUser falsy emptyPage userId role page pageSize query1 w in
  let cleared := TicketService.invalidateTicketCache userId role (elapse d1 (snd first)) in
  let second := TicketService.getTicketsByUser falsy emptyPage userId role page pageSize query2
                  (elapse d2 (snd cleared)) in
  fst first = Ok v1 /\
  peek (elapse d1 (snd first)) key = Some (Entry text (Some (now w + CacheTTL.SHORT * 1000))) /\
  peek (snd cleared) key = None /\
  fst second = Ok v2 /\
  fetches (snd second) = S (S (fetches w)).
Proof.
  intros p s key Hup Hu Hr Habsent Hq1 Ht1 Hv1 Hq2 Hv2 Hd1 Hd2. cbv zeta.
  pose proof (getTicketsByUser_eq userId role page pageSize query1 w) as E1.
  cbv zeta in E1. fold p s in E1. fold key in E1. rewrite E1, Hq1. clear E1.
  rewrite (getOrSet_fills key v1 CacheTTL.SHORT text w Hup Habsent Ht1) by reflexivity.
  cbn [fst snd]. rewrite Hv1. split; [reflexivity|].
  set (w1 := with_store _ _).
  assert (Hcached : peek (elapse d1 w1) key
                    = Some (Entry text (Some (now w + CacheTTL.SHORT * 1000)))).
  { subst w1. rewrite peek_elapse_insert, decide_True by reflexivity.
    cbn [record advance now]. rewrite alive_deadline.
    destruct (Z.ltb_spec (now w + d1) (now w + CacheTTL.SHORT * 1000)); [reflexivity | lia]. }
  split; [exact Hcached|].
  rewrite invalidate_eq. cbn [snd].
  assert (Hup1 : reachable (elapse d1 w1)) by exact Hup.
  destruct (delPattern_reachable (TicketService.pattern userId role) (elapse d1 w1) Hup1)
    as [_ Hgone].
  set (w2 := snd (CacheService.delPattern _ _)) in *.
  assert (Hnone : peek w2 key = None).
  { rewrite Hgone. subst key. now rewrite pattern_matches_page. }
  split; [exact Hnone|].
  pose proof (getTicketsByUser_eq userId role page pageSize query2 (elapse d2 w2)) as E2.
  cbv zeta in E2. fold p s in E2. fold key in E2. rewrite E2, Hq2. clear E2.
  assert (Hmiss : fst (CacheService.get key (elapse d2 w2)) = Ok null)
    by (apply get_miss, peek_None_later; assumption).
  destruct (getOrSet_miss_outcome key (Resolves v2) CacheTTL.SHORT (elapse d2 w2) Hmiss)
    as [Hres Hcalls].
  cbn [fst snd]. rewrite Hres, Hcalls. cbn [outcome]. rewrite Hv2. split; [reflexivity|].
  f_equal. change (fetches (elapse d2 w2)) with (fetches w2).
  subst w2. rewrite delPattern_fetches. reflexivity.
Qed.

(** X22.  An invalidation that cannot reach the store is lost without a
    trace: [invalidateTicketCache] still returns normally, the keyspace is as
    the first read left it, and a [getTicketsByUser] within the minute serves
    the page cached before, without running its query. *)
Theorem stale_page_survives_a_failed_invalidation
    userId role page pageSize query1 query2 (v1 v1' : value) text d1 d2 w :
  let p := TicketService.or_default page 1 in
  let s := TicketService.or_default pageSize 10 in
  let key := TicketService.cacheKey userId role p s in
  (forall i, i <> (4 + tick w)%nat -> online w i = true) ->
  online w (4 + tick w)%nat = false ->
  peek w key = None ->
  query1 p s ((p - 1) * s) = Resolves v1 ->
  JSON_stringify v1 = Some text -> text <> "" -> JSON_parse text = Some v1' ->
  v1' <> null -> falsy v1' = false ->
  0 <= d1 -> 0 <= d2 -> d1 + d2 < CacheTTL.SHORT * 1000 ->
  let first := TicketService.getTicketsByUser falsy emptyPage userId role page pageSize query1 w in
  let cleared := TicketService.invalidateTicketCache userId role (elapse d1 (snd first)) in
  let second := TicketService.getTicketsByUser falsy emptyPage userId role page pageSize query2
                  (elapse d2 (snd cleared)) in
  fst cleared = Ok tt /\
  store (snd cleared) = store (snd first) /\
  fst second = Ok v1' /\
  fetches (snd second) = S (fetches w).
Proof.
  intros p s key Hon Hoff Habsent Hq1 Ht1 Hne Hparse Hnn Hv1 Hd1 Hd2 Hlate. cbv zeta.
  pose proof (getTicketsByUser_eq userId role page pageSize query1 w) as E1.
  cbv zeta in E1. fold p s in E1. fold key in E1. rewrite E1, Hq1. clear E1.
  cbn [snd].
  rewrite (getOrSet_miss key (Resolves v1) CacheTTL.SHORT w) by (now apply get_miss).
  cbv zeta. cbn [snd].
  rewrite get_eq, (Hon (tick w)) by lia. cbn [snd].
  rewrite set_eq. cbn [record advance online tick].
  rewrite (Hon (S (S (tick w)))), (Hon (S (S (S (tick w))))), Ht1 by lia.
  cbv zeta. cbn [Z.leb CacheTTL.SHORT Z.compare snd].
  set (w1 := with_store _ _).
  rewrite invalidate_eq. rewrite delPattern_eq.
  change (online (elapse d1 w1) (tick (elapse d1 w1))) with (online w (4 + tick w)%nat).
  rewrite Hoff. cbn [fst snd].
  split; [reflexivity|]. split; [reflexivity|].
  set (w2 := elapse d2 _).
  pose proof (getTicketsByUser_eq userId role page pageSize query2 w2) as E2.
  cbv zeta in E2. fold p s in E2. fold key in E2. rewrite E2. clear E2.
  assert (Hhit : fst (CacheService.get key w2) = Ok v1').
  { rewrite get_eq.
    change (online w2) with (online w). change (tick w2) with (5 + tick w)%nat.
    rewrite (Hon (5 + tick w)%nat), (Hon (S (5 + tick w))) by lia.
    cbn [fst]. f_equal.
    replace (peek w2 key) with (Some (Entry text (Some (now w + CacheTTL.SHORT * 1000)))).
    - cbn [decode data]. destruct text; [congruence|]. now rewrite Hparse.
    - symmetry. apply peek_lookup.
      + subst w2 w1. cbn. apply lookup_insert_eq.
      + rewrite alive_deadline. apply Z.ltb_lt. subst w2 w1. cbn. lia. }
  rewrite (getOrSet_hit key _ CacheTTL.SHORT w2 v1' Hhit Hnn). cbn [fst snd].
  rewrite Hv1. split; [reflexivity|].
  rewrite get_fetches. reflexivity.
Qed.
End TicketLists.

(** * The connection manager *)

Lemma getClient_idle link meanwhile fuel m :
  RedisClient.isConnecting m = false ->
  RedisClient.getClient link meanwhile fuel m =
  if RedisClient.isOpen m then (RedisClient.Returned, m)
  else if link (RedisClient.attempts m)
       then (RedisClient.Returned,
             RedisClient.Manager (Some true) false (S (RedisClient.attempts m)))
       else (RedisClient.Threw,
             RedisClient.Manager None false (S (RedisClient.attempts m))).
Proof. intros Hidle. destruct fuel; cbn [RedisClient.getClient]; now rewrite Hidle. Qed.

(** X23.  One connection for the process: from a manager with no open client
    and no attempt in flight, when the connection succeeds, any number of
    [getClient] calls in a row all return, and only the first one connects. *)
Theorem getClient_connects_once link n m :
  RedisClient.isConnecting m = false ->
  RedisClient.isOpen m = false ->
  link (RedisClient.attempts m) = true ->
  let out := RedisClient.calls link (S n) m in
  fst out = repeat RedisClient.Returned (S n) /\
  snd out = RedisClient.Manager (Some true) false (S (RedisClient.attempts m)).
Proof.
  intros Hidle Hclosed Hlink. cbv zeta. cbn [RedisClient.calls].
  rewrite (getClient_idle link id 0 m Hidle), Hclosed, Hlink.
  set (m1 := RedisClient.Manager _ _ _).
  assert (Hrest : RedisClient.calls link n m1 = (repeat RedisClient.Returned n, m1)).
  { induction n as [|n IH]; [reflexivity|].
    cbn [RedisClient.calls]. rewrite (getClient_idle link id 0 m1 eq_refl).
    cbn [RedisClient.isOpen RedisClient.client m1]. now rewrite IH. }
  rewrite Hrest. split; reflexivity.
Qed.

(** X24.  A failed connection leaves no lock behind: each [getClient] that
    finds the store away throws, leaves [isConnecting] false and no open
    client, and counts one attempt; the call after the store is back connects
    and returns. *)
Theorem getClient_failure_leaves_no_lock link n : forall m,
  RedisClient.isConnecting m = false ->
  RedisClient.isOpen m = false ->
  (forall i, (i < n)%nat -> link (RedisClient.attempts m + i)%nat = false) ->
  let out := RedisClient.calls link n m in
  fst out = repeat RedisClient.Threw n /\
  RedisClient.attempts (snd out) = (RedisClient.attempts m + n)%nat /\
  RedisClient.isConnecting (snd out) = false /\
  RedisClient.isOpen (snd out) = false /\
  (link (RedisClient.attempts m + n)%nat = true ->
   fst (RedisClient.getClient link id 0 (snd out)) = RedisClient.Returned).
Proof.
  induction n as [|n IH]; intros m Hidle Hclosed Hlink; cbv zeta.
  - cbn [RedisClient.calls fst snd repeat]. rewrite Nat.add_0_r.
    split; [reflexivity|]. split; [reflexivity|]. split; [exact Hidle|].
    split; [exact Hclosed|].
    intros Hup. now rewrite (getClient_idle link id 0 m Hidle), Hclosed, Hup.
  - cbn [RedisClient.calls].
    rewrite (getClient_idle link id 0 m Hidle), Hclosed.
    pose proof (Hlink 0%nat ltac:(lia)) as H0. rewrite Nat.add_0_r in H0. rewrite H0.
    set (m1 := RedisClient.Manager None false (S (RedisClient.attempts m))).
    destruct (IH m1 eq_refl eq_refl) as (IHr & IHa & IHc & IHo & IHnext).
    { intros i Hi. subst m1. cbn. replace (S (RedisClient.attempts m + i))
        with (RedisClient.attempts m + S i)%nat by lia. apply Hlink. lia. }
    cbv zeta in IHr, IHa, IHc, IHo, IHnext.
    destruct (RedisClient.calls link n m1) as [rs m2]. cbn [fst snd] in *.
    rewrite IHr. split; [reflexivity|].
    split; [rewrite IHa; subst m1; cbn; lia|].
    split; [exact IHc|]. split; [exact IHo|].
    intros Hup. apply IHnext. subst m1. cbn.
    now replace (S (RedisClient.attempts m + n)) with (RedisClient.attempts m + S n)%nat by lia.
Qed.

(** X26.  [disconnect] leaves no open client and is idempotent, and it makes
    no connection attempt; after disconnecting an open client the manager
    holds none, and the next [getClient] connects anew. *)
Theorem disconnect_then_reconnect link m :
  RedisClient.isConnecting m = false ->
  let closed := RedisClient.disconnect m in
  RedisClient.isOpen closed = false /\
  RedisClient.disconnect closed = closed /\
  RedisClient.attempts closed = RedisClient.attempts m /\
  (RedisClient.isOpen m = true ->
   RedisClient.client closed = None /\
   RedisClient.getClient link id 0 closed
   = if link (RedisClient.attempts m)
     then (RedisClient.Returned, RedisClient.Manager (Some true) false (S (RedisClient.attempts m)))
     else (RedisClient.Threw, RedisClient.Manager None false (S (RedisClient.attempts m)))).
Proof.
  intros Hidle. cbv zeta. unfold RedisClient.disconnect.
  destruct (RedisClient.isOpen m) eqn:Hopen.
  - cbn [RedisClient.isOpen RedisClient.client RedisClient.attempts].
    split; [reflexivity|]. split; [reflexivity|]. split; [reflexivity|].
    intros _. split; [reflexivity|].
    rewrite getClient_idle by exact Hidle. reflexivity.
  - split; [exact Hopen|]. split; [now rewrite Hopen|]. split; [reflexivity|].
    discriminate.
Qed.

(** The delays of [reconnectStrategy] never reach its cap of one second. *)
Lemma reconnectStrategy_is_bounded retries :
  0 <= retries ->
  (2 < retries -> RedisClient.reconnectStrategy retries = None) /\
  (retries <= 2 ->
   RedisClient.reconnectStrategy retries = Some (retries * 100) /\ retries * 100 <= 200).
Proof.
  intros Hpos. unfold RedisClient.reconnectStrategy. split; intros Hr.
  - destruct (Z.ltb_spec 2 retries); [reflexivity | lia].
  - destruct (Z.ltb_spec 2 retries); [lia|].
    split; [f_equal|]; lia.
Qed.

(** * The further properties on concrete worlds *)

Lemma set_then_get_witness :
  let w := boot 0 (always true) in
  let stored := CacheService.set "property:7" (JNumber 7) 300 w in
  (reachable w /\ JSON_stringify (JNumber 7) = Some "7" /\ "7" <> "" /\
   JSON_parse "7" = Some (JNumber 7) /\ 0 < 300) /\
  fst stored = Ok true /\
  fst (CacheService.get "property:7" (elapse 300000 (snd stored)))
    = Ok (if 300000 <? 300 * 1000 then JNumber 7 else null).
Proof.
  pose proof (boot_reachable 0) as Hup.
  assert (Hne : "7" <> "") by discriminate.
  assert (Httl : 0 < 300) by lia.
  split; [repeat split; assumption || reflexivity|].
  exact (set_then_get "property:7" (JNumber 7) (JNumber 7) "7" 300 300000
           (boot 0 (always true)) Hup eq_refl Hne eq_refl Httl).
Defined.

Lemma getOrSet_recomputes_after_ttl_witness :
  let w := boot 0 (always true) in
  let first := CacheService.getOrSet "property:7" (Resolves (JNumber 7)) 300 w in
  let second :=
    CacheService.getOrSet "property:7" (Resolves (JNumber 8)) 300 (elapse 300000 (snd first)) in
  (reachable w /\ peek w "property:7" = None /\
   JSON_stringify (JNumber 7) = Some "7" /\ 0 < 300 /\ 300 * 1000 <= 300000) /\
  peek (elapse 300000 (snd first)) "property:7" = None /\
  fst second = Ok (JNumber 8) /\
  fetches (snd second) = S (fetches (snd first)).
Proof.
  pose proof (boot_reachable 0) as Hup.
  assert (Httl : 0 < 300) by lia.
  assert (Hdt : 300 * 1000 <= 300000) by lia.
  split; [repeat split; assumption || reflexivity|].
  exact (getOrSet_recomputes_after_ttl "property:7" (JNumber 7) "7" 300
           (Resolves (JNumber 8)) 300 300000 (boot 0 (always true))
           Hup eq_refl eq_refl Httl Hdt).
Defined.

Lemma nonpositive_ttl_never_caches_witness :
  let w := boot 0 (always true) in
  let requests := [Request 0 (Resolves (JNumber 1)) 0; Request 5 (Resolves (JNumber 1)) (-1)] in
  let out := session "property:7" requests w in
  (store w !! "property:7" = None /\ Forall (fun q => ttl q <= 0) requests) /\
  fst out = [Ok (JNumber 1); Ok (JNumber 1)] /\
  fetches (snd out) = 2%nat /\
  store (snd out) = store w.
Proof.
  assert (Hall : Forall (fun q : request scalar => ttl q <= 0)
                   [Request 0 (Resolves (JNumber 1)) 0; Request 5 (Resolves (JNumber 1)) (-1)])
    by (repeat constructor; cbn; lia).
  split; [split; [reflexivity | exact Hall]|].
  exact (nonpositive_ttl_never_caches "property:7" _ (boot 0 (always true)) eq_refl Hall).
Defined.

Lemma later_set_wins_witness :
  let w := boot 0 (always true) in
  let once := snd (CacheService.set "property:7" (JNumber 1) 3600 w) in
  let twice := snd (CacheService.set "property:7" (JNumber 2) 60 (elapse 10 once)) in
  (reachable w /\ 0 < 3600 /\ 0 < 60 /\ "2" <> "") /\
  fst (CacheService.get "property:7" (elapse 59999 twice)) = Ok (JNumber 2) /\
  fst (CacheService.get "property:7" (elapse 60000 twice)) = Ok JNull.
Proof.
  pose proof (boot_reachable 0) as Hup.
  assert (H1 : 0 < 3600) by lia. assert (H2 : 0 < 60) by lia.
  assert (Hne : "2" <> "") by discriminate.
  split; [repeat split; assumption|].
  split.
  - exact (later_set_wins "property:7" (JNumber 1) (JNumber 2) (JNumber 2) "1" "2" 3600 60
             10 59999 (boot 0 (always true)) Hup eq_refl H1 eq_refl Hne eq_refl H2).
  - exact (later_set_wins "property:7" (JNumber 1) (JNumber 2) (JNumber 2) "1" "2" 3600 60
             10 60000 (boot 0 (always true)) Hup eq_refl H1 eq_refl Hne eq_refl H2).
Defined.

Lemma del_is_idempotent_witness :
  let once := CacheService.del "ns:a:1" ns_world in
  let twice := CacheService.del "ns:a:1" (snd once) in
  (reachable ns_world /\ is_Some (peek ns_world "ns:a:1")) /\
  fst once = Ok true /\ fst twice = Ok true /\
  peek (snd once) "ns:a:1" = None /\
  fst (CacheService.get (value := scalar) "ns:a:1" (snd once)) = Ok null /\
  peek (snd once) "ns:b:1" = peek ns_world "ns:b:1" /\
  store (snd twice) = store (snd once).
Proof.
  assert (Hup : reachable ns_world) by (intros i; reflexivity).
  split; [split; [exact Hup | eexists; reflexivity]|].
  pose proof (del_is_idempotent (value := scalar) "ns:a:1" ns_world) as (_ & Hdel & _).
  destruct (Hdel Hup) as (H1 & H2 & H3 & H4 & H5 & H6).
  split; [exact H1|]. split; [exact H2|]. split; [exact H3|]. split; [exact H4|].
  split; [apply H5; discriminate | exact H6].
Defined.

Lemma exists_tracks_lifetime_witness :
  let w := boot 0 (always true) in
  let stored := snd (CacheService.set "property:7" JNull 300 w) in
  (reachable w /\ JSON_stringify JNull = Some "null" /\ 0 < 300 /\
   JSON_parse "null" = Some JNull /\ 10 < 300 * 1000) /\
  fst (CacheService.exists_ "property:7" (elapse 10 stored)) = Ok true /\
  fst (CacheService.get "property:7" (elapse 10 stored)) = Ok JNull.
Proof.
  pose proof (boot_reachable 0) as Hup.
  assert (Httl : 0 < 300) by lia. assert (Hdt : 10 < 300 * 1000) by lia.
  split; [repeat split; assumption || reflexivity|].
  assert (Htext : JSON_stringify JNull = Some "null") by reflexivity.
  assert (Hparse : JSON_parse "null" = Some JNull) by reflexivity.
  destruct (exists_tracks_lifetime "property:7" JNull "null" 300 10 (boot 0 (always true))
              Hup Htext Httl) as [_ Hnull].
  exact (Hnull Hparse Hdt).
Defined.

Lemma setNX_first_writer_wins_witness :
  let w := boot 0 (always true) in
  let first := CacheService.setNX "lock:invoice:9" (JNumber 1) 30 w in
  let second := CacheService.setNX "lock:invoice:9" (JNumber 2) 30 (elapse 10 (snd first)) in
  (reachable w /\ peek w "lock:invoice:9" = None /\ 0 < 30) /\
  fst first = Ok true /\
  fst second = Ok (negb (10 <? 30 * 1000)) /\
  peek (snd second) "lock:invoice:9" =
    Some (if 10 <? 30 * 1000
          then Entry "1" (Some (now w + 30 * 1000))
          else Entry "2" (Some (now w + 10 + 30 * 1000))).
Proof.
  pose proof (boot_reachable 0) as Hup.
  assert (Httl : 0 < 30) by lia.
  split; [repeat split; assumption || reflexivity|].
  exact (setNX_first_writer_wins "lock:invoice:9" (JNumber 1) (JNumber 2) "1" "2" 30 30 10
           (boot 0 (always true)) Hup eq_refl eq_refl eq_refl Httl Httl).
Defined.

Lemma expire_replaces_lifetime_witness :
  let w := boot 0 (always true) in
  let stored := snd (CacheService.set "property:7" (JNumber 7) 300 w) in
  let touched := CacheService.expire "property:7" 0 stored in
  (reachable w /\ "7" <> "" /\ 0 < 300) /\
  fst touched = Ok true /\
  fst (CacheService.get "property:7" (elapse 1 (snd touched)))
    = Ok (if (0 <? 0) && (1 <? 0 * 1000) then JNumber 7 else null) /\
  fst (CacheService.expire "property:7" 0 (snd (CacheService.del "property:7" stored)))
    = Ok false.
Proof.
  pose proof (boot_reachable 0) as Hup.
  assert (Hne : "7" <> "") by discriminate.
  assert (Httl : 0 < 300) by lia.
  split; [repeat split; assumption|].
  exact (expire_replaces_lifetime "property:7" (JNumber 7) (JNumber 7) "7" 300 0 1
           (boot 0 (always true)) Hup eq_refl Hne eq_refl Httl).
Defined.

Lemma fixed_window_admits_the_first_witness :
  let w := boot 0 (always true) in
  let key := CacheKeys.rateLimit "agent-1" "createProperty" in
  (reachable w /\ peek (elapse 0 w) key = None /\ 0 < 60 /\
   Forall (fun dt => 0 <= dt) [1; 1; 1] /\ total [1; 1; 1] < 60 * 1000) /\
  map summary (fst (burst "agent-1" "createProperty" 3 60 [0; 1; 1; 1] w)) !! 2%nat
    = Some (Some (true, 0, 3)) /\
  map summary (fst (burst "agent-1" "createProperty" 3 60 [0; 1; 1; 1] w)) !! 3%nat
    = Some (Some (false, 0, 4)).
Proof.
  pose proof (boot_reachable 0) as Hup.
  assert (Hwin : 0 < 60) by lia.
  assert (Hlen : Z.of_nat (length [1; 1; 1]) < LLONG_MAX) by reflexivity.
  assert (Hpos : Forall (fun dt => 0 <= dt) [1; 1; 1]) by (repeat constructor; lia).
  assert (Hlate : total [1; 1; 1] < 60 * 1000) by (cbn; lia).
  split; [repeat split; assumption || reflexivity|].
  split.
  - exact (fixed_window_admits_the_first "agent-1" "createProperty" 3 60 0 [1; 1; 1]
             (boot 0 (always true)) 2 Hup eq_refl Hwin Hlen Hpos Hlate ltac:(cbn; lia)).
  - exact (fixed_window_admits_the_first "agent-1" "createProperty" 3 60 0 [1; 1; 1]
             (boot 0 (always true)) 3 Hup eq_refl Hwin Hlen Hpos Hlate ltac:(cbn; lia)).
Defined.

Lemma window_resets_witness :
  let w := boot 0 (always true) in
  let key := CacheKeys.rateLimit "agent-1" "createTicket" in
  let first := burst "agent-1" "createTicket" 5 60 [0; 1000] w in
  let second := burst "agent-1" "createTicket" 5 60 [59000; 1] (snd first) in
  (reachable w /\ peek (elapse 0 w) key = None /\ 0 < 60 /\
   total [1000] < 60 * 1000 /\ total [1] < 60 * 1000 /\ 60 * 1000 <= total [1000] + 59000) /\
  map summary (fst first) = [Some (true, 4, 1); Some (true, 3, 2)] /\
  map summary (fst second) = [Some (true, 4, 1); Some (true, 3, 2)] /\
  expires key (snd second) = [60; 60].
Proof.
  pose proof (boot_reachable 0) as Hup.
  assert (Hwin : 0 < 60) by lia.
  assert (Hlen1 : Z.of_nat (length [1000]) < LLONG_MAX) by reflexivity.
  assert (Hlen2 : Z.of_nat (length [1]) < LLONG_MAX) by reflexivity.
  assert (Hpos1 : Forall (fun dt => 0 <= dt) [1000]) by (repeat constructor; lia).
  assert (Hpos2 : Forall (fun dt => 0 <= dt) [1]) by (repeat constructor; lia).
  assert (Hlate1 : total [1000] < 60 * 1000) by (cbn; lia).
  assert (Hlate2 : total [1] < 60 * 1000) by (cbn; lia).
  assert (Hgap : 60 * 1000 <= total [1000] + 59000) by (cbn; lia).
  split; [repeat split; assumption || reflexivity|].
  exact (window_resets "agent-1" "createTicket" 5 60 0 [1000] 59000 [1]
           (boot 0 (always true)) Hup eq_refl Hwin Hlen1 Hlen2 Hpos1 Hpos2
           Hlate1 Hlate2 Hgap).
Defined.


Lemma lost_expire_never_resets_witness :
  let w := boot 0 (except 2) in
  let key := CacheKeys.rateLimit "agent-1" "createProperty" in
  let first := RateLimiter.check "agent-1" "createProperty" 3 60 w in
  let later := burst "agent-1" "createProperty" 3 60 [100000; 100000; 100000] (snd first) in
  (online w 0%nat = true /\ online w 1%nat = true /\ online w 2%nat = false /\
   (forall i, (3 <= i)%nat -> online w i = true) /\ peek w key = None) /\
  summary (fst first) = Some (true, 2, 1) /\
  map summary (fst later) = [Some (true, 1, 2); Some (true, 0, 3); Some (false, 0, 4)] /\
  store (snd later) !! key = Some (Entry "4" None) /\
  expires key (snd later) = [].
Proof.
  assert (Hlater : forall i, (3 <= i)%nat -> online (boot 0 (except 2)) i = true).
  { intros i Hi. cbn. unfold except. apply negb_true_iff, Nat.eqb_neq. lia. }
  assert (Hlen : Z.of_nat (length [100000; 100000; 100000]) < LLONG_MAX) by reflexivity.
  assert (Hpos : Forall (fun dt => 0 <= dt) [100000; 100000; 100000])
    by (repeat constructor; lia).
  split; [repeat split; assumption || reflexivity|].
  exact (lost_expire_never_resets "agent-1" "createProperty" 3 60 [100000; 100000; 100000]
           (boot 0 (except 2)) eq_refl eq_refl eq_refl Hlater eq_refl Hlen Hpos).
Defined.

Lemma unreadable_counter_disables_the_limit_witness :
  let key := CacheKeys.rateLimit "agent-1" "createTicket" in
  let out := burst "agent-1" "createTicket" 5 60 [0; 0; 0; 0; 0; 0; 0] clobbered_world in
  (reachable clobbered_world /\ store clobbered_world !! key = Some (Entry "null" None) /\
   string2ll "null" = None /\ 0 <= 5) /\
  Forall (fun r => summary r = Some (true, 5, 0)) (fst out) /\
  store (snd out) = store clobbered_world /\
  expires key (snd out) = expires key clobbered_world.
Proof.
  assert (Hup : reachable clobbered_world) by (intros i; reflexivity).
  assert (Hmax : 0 <= 5) by lia.
  assert (Hpos : Forall (fun dt => 0 <= dt) [0; 0; 0; 0; 0; 0; 0]) by (repeat constructor; lia).
  split; [repeat split; assumption || reflexivity|].
  exact (unreadable_counter_disables_the_limit "agent-1" "createTicket" 5 60
           (Entry "null" None) [0; 0; 0; 0; 0; 0; 0] clobbered_world
           Hup eq_refl (or_introl eq_refl) Hmax Hpos eq_refl).
Defined.

Lemma counters_are_independent_witness :
  let w := boot 0 (always true) in
  let after := snd (RateLimiter.check "agent-1" "createTicket" 5 60 w) in
  (reachable w /\ free_of ":" "createTicket" = true /\ free_of ":" "postReply" = true /\
   ("agent-1" <> "agent-1" \/ "createTicket" <> "postReply")) /\
  store after !! CacheKeys.rateLimit "agent-1" "postReply"
    = store w !! CacheKeys.rateLimit "agent-1" "postReply" /\
  fst (RateLimiter.check "agent-1" "postReply" 10 60 after)
    = fst (RateLimiter.check "agent-1" "postReply" 10 60 w).
Proof.
  pose proof (boot_reachable 0) as Hup.
  assert (Hdiff : "agent-1" <> "agent-1" \/ "createTicket" <> "postReply")
    by (right; discriminate).
  split; [repeat split; assumption || reflexivity|].
  exact (counters_are_independent "agent-1" "createTicket" 5 60 "agent-1" "postReply" 10 60
           (boot 0 (always true)) Hup eq_refl eq_refl Hdiff).
Defined.

Lemma applyRateLimit_enforces_the_table_witness :
  let w := boot 0 (always true) in
  let key := CacheKeys.rateLimit "agent-1" (RateLimitConfig.name RateLimitConfig.createProperty) in
  let answers := fst (flood "agent-1" RateLimitConfig.createProperty [0; 1; 1; 1] w) in
  (reachable w /\ peek (elapse 0 w) key = None /\ total [1; 1; 1] < 60 * 1000) /\
  answers !! 2%nat = Some (Ok None) /\
  exists resp, answers !! 3%nat = Some (Ok (Some resp)) /\
    status resp = 429 /\
    headers resp !! 0%nat = Some ("X-RateLimit-Limit", "3") /\
    headers resp !! 3%nat = Some ("Retry-After", "60").
Proof.
  pose proof (boot_reachable 0) as Hup.
  assert (Hlen : Z.of_nat (length [1; 1; 1]) < LLONG_MAX) by reflexivity.
  assert (Hpos : Forall (fun dt => 0 <= dt) [1; 1; 1]) by (repeat constructor; lia).
  assert (Hlate : total [1; 1; 1] < 60 * 1000) by (cbn; lia).
  split; [repeat split; assumption || reflexivity|].
  split.
  - destruct (applyRateLimit_enforces_the_table "agent-1" RateLimitConfig.createProperty 0
                [1; 1; 1] (boot 0 (always true)) 2 Hup eq_refl Hlen Hpos Hlate
                ltac:(cbn; lia)) as [Hpass _].
    apply Hpass. cbn. lia.
  - destruct (applyRateLimit_enforces_the_table "agent-1" RateLimitConfig.createProperty 0
                [1; 1; 1] (boot 0 (always true)) 3 Hup eq_refl Hlen Hpos Hlate
                ltac:(cbn; lia)) as [_ Hreject].
    apply Hreject. cbn. lia.
Defined.

Lemma applyRateLimit_fails_open_witness :
  let w := boot 0 (always false) in
  let out := flood "agent-1" RateLimitConfig.createProperty [0; 0; 0; 0; 0] w in
  unreachable w /\
  Forall (fun r => r = Ok None) (fst out) /\
  store (snd out) = store w.
Proof.
  pose proof (boot_unreachable 0) as Hdown.
  split; [exact Hdown|].
  exact (applyRateLimit_fails_open "agent-1" RateLimitConfig.createProperty [0; 0; 0; 0; 0]
           (boot 0 (always false)) Hdown).
Defined.

Lemma invalidation_covers_every_page_witness :
  let w := boot 0 (always true) in
  let read := snd (CacheService.getOrSet (TicketService.cacheKey "agent-1" "AGENT" 2 10)
                     (Resolves (JNumber 7)) CacheTTL.SHORT w) in
  let after := snd (TicketService.invalidateTicketCache "agent-1" "AGENT" read) in
  (reachable read /\ glob_plain "agent-1" = true /\ glob_plain "AGENT" = true /\
   is_Some (peek read (TicketService.cacheKey "agent-1" "AGENT" 2 10))) /\
  peek after (TicketService.cacheKey "agent-1" "AGENT" 2 10) = None.
Proof.
  set (w := boot 0 (always true)).
  set (read := snd (CacheService.getOrSet (TicketService.cacheKey "agent-1" "AGENT" 2 10)
                      (Resolves (JNumber 7)) CacheTTL.SHORT w)).
  assert (Hup : reachable read) by (intros i; reflexivity).
  split; [repeat split; try assumption; eexists; reflexivity|].
  destruct (invalidation_covers_every_page "agent-1" "AGENT" read Hup eq_refl eq_refl)
    as [Hgone _].
  exact (Hgone 2 10).
Defined.

Lemma invalidation_is_per_user_witness :
  let w := boot 0 (always true) in
  let key := TicketService.cacheKey "agent-2" "AGENT" 1 10 in
  let read := snd (CacheService.getOrSet key (Resolves (JNumber 7)) CacheTTL.SHORT w) in
  (glob_plain "agent-1" = true /\ glob_plain "AGENT" = true /\
   free_of ":" "agent-1" = true /\ free_of ":" "AGENT" = true /\
   free_of ":" "agent-2" = true /\ ("agent-1" <> "agent-2" \/ "AGENT" <> "AGENT") /\
   is_Some (peek read key)) /\
  peek (snd (TicketService.invalidateTicketCache "agent-1" "AGENT" read)) key = peek read key.
Proof.
  assert (Hdiff : "agent-1" <> "agent-2" \/ "AGENT" <> "AGENT") by (left; discriminate).
  split; [repeat split; try assumption; eexists; reflexivity|].
  exact (invalidation_is_per_user "agent-1" "AGENT" "agent-2" "AGENT" 1 10 _
           eq_refl eq_refl eq_refl eq_refl eq_refl eq_refl Hdiff).
Defined.

Lemma getTicketsByUser_masks_failures_witness :
  let w := boot 0 (always true) in
  let out := TicketService.getTicketsByUser scalar_falsy (fun _ _ => JBool true)
               "agent-1" "AGENT" None (Some 0) (fun _ _ _ => Rejects) w in
  (scalar_falsy null = true /\
   peek w (TicketService.cacheKey "agent-1" "AGENT" 1 10) = None) /\
  fst out = Ok (JBool true) /\ store (snd out) = store w.
Proof.
  assert (Hnull : scalar_falsy null = true) by reflexivity.
  split; [split; [exact Hnull | reflexivity]|].
  destruct (getTicketsByUser_masks_failures scalar_falsy (fun _ _ => JBool true)
              "agent-1" "AGENT" None (Some 0) (fun _ _ _ => Rejects) (boot 0 (always true))
              Hnull (fun _ _ => eq_refl)) as [_ Hmask].
  exact (Hmask eq_refl eq_refl).
Defined.

Lemma reread_after_invalidation_witness :
  let w := boot 0 (always true) in
  let key := TicketService.cacheKey "agent-1" "AGENT" 1 10 in
  let first := TicketService.getTicketsByUser scalar_falsy (fun _ _ => JBool true)
                 "agent-1" "AGENT" None None (fun _ _ _ => Resolves (JNumber 3)) w in
  let cleared := TicketService.invalidateTicketCache "agent-1" "AGENT" (elapse 500 (snd first)) in
  let second := TicketService.getTicketsByUser scalar_falsy (fun _ _ => JBool true)
                  "agent-1" "AGENT" None None (fun _ _ _ => Resolves (JNumber 4))
                  (elapse 500 (snd cleared)) in
  (reachable w /\ glob_plain "agent-1" = true /\ glob_plain "AGENT" = true /\
   peek w key = None /\ 0 <= 500 < CacheTTL.SHORT * 1000) /\
  fst first = Ok (JNumber 3) /\
  peek (elapse 500 (snd first)) key = Some (Entry "3" (Some (now w + CacheTTL.SHORT * 1000))) /\
  peek (snd cleared) key = None /\
  fst second = Ok (JNumber 4) /\
  fetches (snd second) = S (S (fetches w)).
Proof.
  pose proof (boot_reachable 0) as Hup.
  assert (Hd1 : 0 <= 500 < CacheTTL.SHORT * 1000) by (unfold CacheTTL.SHORT; lia).
  assert (Hd2 : 0 <= 500) by lia.
  split; [repeat split; try assumption; try reflexivity; apply Hd1|].
  exact (reread_after_invalidation scalar_falsy (fun _ _ => JBool true)
           "agent-1" "AGENT" None None
           (fun _ _ _ => Resolves (JNumber 3)) (fun _ _ _ => Resolves (JNumber 4))
           (JNumber 3) (JNumber 4) "3" 500 500 (boot 0 (always true))
           Hup eq_refl eq_refl eq_refl eq_refl eq_refl eq_refl eq_refl eq_refl Hd1 Hd2).
Defined.

Lemma stale_page_survives_a_failed_invalidation_witness :
  let w := boot 0 (except 4) in
  let first := TicketService.getTicketsByUser scalar_falsy (fun _ _ => JBool true)
                 "agent-1" "AGENT" None None (fun _ _ _ => Resolves (JNumber 3)) w in
  let cleared := TicketService.invalidateTicketCache "agent-1" "AGENT" (elapse 500 (snd first)) in
  let second := TicketService.getTicketsByUser scalar_falsy (fun _ _ => JBool true)
                  "agent-1" "AGENT" None None (fun _ _ _ => Resolves (JNumber 4))
                  (elapse 500 (snd cleared)) in
  ((forall i, i <> (4 + tick w)%nat -> online w i = true) /\
   online w (4 + tick w)%nat = false /\
   500 + 500 < CacheTTL.SHORT * 1000) /\
  fst cleared = Ok tt /\
  store (snd cleared) = store (snd first) /\
  fst second = Ok (JNumber 3) /\
  fetches (snd second) = S (fetches w).
Proof.
  assert (Hon : forall i, i <> (4 + tick (boot 0 (except 4)))%nat ->
                          online (boot 0 (except 4)) i = true).
  { intros i Hi. cbn in *. unfold except. now apply negb_true_iff, Nat.eqb_neq. }
  assert (Hne : "3" <> "") by discriminate.
  assert (Hnn : JNumber 3 <> null) by discriminate.
  assert (Hd : 0 <= 500) by lia.
  assert (Hlate : 500 + 500 < CacheTTL.SHORT * 1000) by (unfold CacheTTL.SHORT; lia).
  split; [repeat split; assumption || reflexivity|].
  exact (stale_page_survives_a_failed_invalidation scalar_falsy (fun _ _ => JBool true)
           "agent-1" "AGENT" None None
           (fun _ _ _ => Resolves (JNumber 3)) (fun _ _ _ => Resolves (JNumber 4))
           (JNumber 3) (JNumber 3) "3" 500 500 (boot 0 (except 4))
           Hon eq_refl eq_refl eq_refl eq_refl Hne eq_refl Hnn eq_refl Hd Hd Hlate).
Defined.

Lemma getClient_connects_once_witness :
  let m := RedisClient.Manager None false 0 in
  (RedisClient.isConnecting m = false /\ RedisClient.isOpen m = false /\
   always true (RedisClient.attempts m) = true) /\
  fst (RedisClient.calls (always true) 4 m)
    = [RedisClient.Returned; RedisClient.Returned; RedisClient.Returned; RedisClient.Returned] /\
  snd (RedisClient.calls (always true) 4 m) = RedisClient.Manager (Some true) false 1.
Proof.
  split; [repeat split|].
  exact (getClient_connects_once (always true) 3 (RedisClient.Manager None false 0)
           eq_refl eq_refl eq_refl).
Defined.

Lemma getClient_failure_leaves_no_lock_witness :
  let m := RedisClient.Manager None false 0 in
  let link := fun i => (2 <=? i)%nat in
  let out := RedisClient.calls link 2 m in
  (forall i, (i < 2)%nat -> link (RedisClient.attempts m + i)%nat = false) /\
  fst out = [RedisClient.Threw; RedisClient.Threw] /\
  RedisClient.attempts (snd out) = 2%nat /\
  RedisClient.isConnecting (snd out) = false /\
  RedisClient.isOpen (snd out) = false /\
  fst (RedisClient.getClient link id 0 (snd out)) = RedisClient.Returned.
Proof.
  assert (Hlink : forall i, (i < 2)%nat ->
            (fun i => (2 <=? i)%nat) (RedisClient.attempts (RedisClient.Manager None false 0) + i)%nat
            = false).
  { intros i Hi. destruct i as [|[|i]]; [reflexivity | reflexivity | lia]. }
  split; [exact Hlink|].
  destruct (getClient_failure_leaves_no_lock (fun i => (2 <=? i)%nat) 2
              (RedisClient.Manager None false 0) eq_refl eq_refl Hlink)
    as (H1 & H2 & H3 & H4 & H5).
  split; [exact H1|]. split; [exact H2|]. split; [exact H3|]. split; [exact H4|].
  exact (H5 eq_refl).
Defined.

Lemma disconnect_then_reconnect_witness :
  let m := RedisClient.Manager (Some true) false 1 in
  let closed := RedisClient.disconnect m in
  (RedisClient.isConnecting m = false /\ RedisClient.isOpen m = true) /\
  RedisClient.client closed = None /\
  RedisClient.disconnect closed = closed /\
  RedisClient.getClient (always true) id 0 closed
  = (RedisClient.Returned, RedisClient.Manager (Some true) false 2).
Proof.
  split; [split; reflexivity|].
  destruct (disconnect_then_reconnect (always true) (RedisClient.Manager (Some true) false 1)
              eq_refl) as (_ & Hidem & _ & Hopen).
  destruct (Hopen eq_refl) as [Hnone Hagain].
  split; [exact Hnone|]. split; [exact Hidem | exact Hagain].
Defined.
